(** * Layout engine of Intelligent_typesetting: a shallow embedding

    The development follows [src/models/ckip_processor.py] (class
    [CkipProcessor]) and the positional serializer of
    [test_txt_format_simple.py].  Python integers are [Z]; a Python [str]
    is the list of its Unicode code points, so that [len] counts
    characters the way Python does; dataclasses and the dictionaries with
    a fixed key set are records; the dictionary keyed by spans is a
    [gmap]; the set of punctuation marks is a [gset]. *)

From Stdlib Require Import ZArith List Lia String Ascii Decimal DecimalString.
From Stdlib Require DecimalN.
From stdpp Require Import base decidable numbers list gmap.

Import ListNotations.
Local Open Scope Z_scope.

(** ** Strings *)

Definition codepoint := N.
Abbreviation pystr := (list codepoint).

(** A literal whose characters are all ASCII. *)
Definition lit (s : string) : pystr :=
  map N_of_ascii (list_ascii_of_string s).

(** [len(s)] *)
Definition len (s : pystr) : Z := Z.of_nat (length s).

(** [sep.join(parts)] *)
Fixpoint join (sep : pystr) (parts : list pystr) : pystr :=
  match parts with
  | [] => []
  | [p] => p
  | p :: rest => p ++ sep ++ join sep rest
  end.

(** [s * n] for a string [s]: empty when [n <= 0]. *)
Definition repeat_str (s : pystr) (n : Z) : pystr :=
  concat (repeat s (Z.to_nat n)).

(** ** Data model *)

Record TokenInfo := mkTokenInfo {
  tok_text : pystr;
  tok_pos : pystr;
  tok_start : Z;
  tok_end : Z;
  tok_is_entity : bool;
  tok_entity_type : option pystr
}.

Record EntityInfo := mkEntityInfo {
  ent_text : pystr;
  ent_type : pystr;
  ent_start : Z;
  ent_end : Z
}.

(** The dictionary [line_info] built by [_generate_pages]. *)
Record LineInfo := mkLineInfo {
  li_text : pystr;
  li_offset : Z;
  li_length : Z;
  li_tokens : list TokenInfo
}.

(** The dictionary [entity_info] built by [_add_entities_to_pages]. *)
Record PageEntity := mkPageEntity {
  pe_text : pystr;
  pe_type : pystr;
  pe_start : Z;
  pe_end : Z;
  pe_line_idx : Z
}.

Record PageLayout := mkPageLayout {
  page_id : Z;
  lines : list LineInfo;
  entities : list PageEntity;
  total_chars : Z
}.

#[global] Instance TokenInfo_eq_dec : EqDecision TokenInfo.
Proof. solve_decision. Defined.

#[global] Instance EntityInfo_eq_dec : EqDecision EntityInfo.
Proof. solve_decision. Defined.

#[global] Instance LineInfo_eq_dec : EqDecision LineInfo.
Proof. solve_decision. Defined.

#[global] Instance PageEntity_eq_dec : EqDecision PageEntity.
Proof. solve_decision. Defined.

#[global] Instance PageLayout_eq_dec : EqDecision PageLayout.
Proof. solve_decision. Defined.

(** ** Configuration set by [__init__] *)

(** [self.no_break_punctuation]: the ASCII marks and their full-width
    forms U+FF0C, U+3002, U+FF01, U+FF1F, U+FF1B, U+FF1A. *)
Definition no_break_punctuation : gset pystr :=
  list_to_set
    [ lit ","; [65292%N]; lit "."; [12290%N]; lit "!"; [65281%N];
      lit "?"; [65311%N]; lit ";"; [65307%N]; lit ":"; [65306%N] ].

Definition default_chars_per_line : Z := 35.
Definition default_lines_per_page : Z := 18.

(** ** Line and page building *)

(** The local variables of the loop of [_generate_pages]. *)
Record LoopState := mkLoopState {
  st_pages : list PageLayout;
  st_current_page : PageLayout;
  st_current_line : pystr;
  st_current_line_tokens : list TokenInfo;
  st_line_offset : Z
}.

(** [current_page.lines.append(line_info); current_page.total_chars += n] *)
Definition page_append_line (p : PageLayout) (li : LineInfo) (n : Z) : PageLayout :=
  {| page_id := page_id p;
     lines := lines p ++ [li];
     entities := entities p;
     total_chars := total_chars p + n |}.

Definition new_line_info (current_line : pystr) (line_offset : Z)
    (current_line_tokens : list TokenInfo) : LineInfo :=
  {| li_text := current_line;
     li_offset := line_offset;
     li_length := len current_line;
     li_tokens := current_line_tokens |}.

Definition new_page (pid : Z) : PageLayout :=
  {| page_id := pid; lines := []; entities := []; total_chars := 0 |}.

(** The truth value of a [str]: non-empty. *)
Definition truthy (s : pystr) : bool :=
  match s with [] => false | _ :: _ => true end.

Section Engine.

(** [self.chars_per_line] and [self.lines_per_page]: plain attributes,
    overwritten by callers without any check. *)
Variables chars_per_line lines_per_page : Z.

Definition _should_break_line (current_line : pystr) (token : TokenInfo)
    (current_tokens : list TokenInfo) : bool :=
  if len current_line + len (tok_text token) >? chars_per_line then true
  else if bool_decide (tok_text token ∈ no_break_punctuation)
          && (len current_line =? 0) then false
  else false.

(** The break branch, first part: the current line, when it is not
    empty, goes to the current page and the running offset advances. *)
Definition close_line (st : LoopState) : LoopState :=
  if truthy (st_current_line st) then
    let line_info :=
      new_line_info (st_current_line st) (st_line_offset st)
                    (st_current_line_tokens st) in
    {| st_pages := st_pages st;
       st_current_page :=
         page_append_line (st_current_page st) line_info
                          (len (st_current_line st));
       st_current_line := st_current_line st;
       st_current_line_tokens := st_current_line_tokens st;
       st_line_offset := st_line_offset st + len (st_current_line st) |}
  else st.

(** The break branch, second part: a page that holds at least
    [lines_per_page] lines is appended to [pages] and a fresh page
    numbered [len(pages) + 1] replaces it. *)
Definition close_page (st : LoopState) : LoopState :=
  if Z.of_nat (length (lines (st_current_page st))) >=? lines_per_page then
    let pages' := st_pages st ++ [st_current_page st] in
    {| st_pages := pages';
       st_current_page := new_page (Z.of_nat (length pages') + 1);
       st_current_line := st_current_line st;
       st_current_line_tokens := st_current_line_tokens st;
       st_line_offset := st_line_offset st |}
  else st.

(** The break branch, last part: [current_line = ""] and
    [current_line_tokens = []]. *)
Definition reset_line (st : LoopState) : LoopState :=
  {| st_pages := st_pages st;
     st_current_page := st_current_page st;
     st_current_line := [];
     st_current_line_tokens := [];
     st_line_offset := st_line_offset st |}.

(** [current_line += token.text; current_line_tokens.append(token)] *)
Definition add_token (st : LoopState) (token : TokenInfo) : LoopState :=
  {| st_pages := st_pages st;
     st_current_page := st_current_page st;
     st_current_line := st_current_line st ++ tok_text token;
     st_current_line_tokens := st_current_line_tokens st ++ [token];
     st_line_offset := st_line_offset st |}.

(** One turn of the [while i < len(tokens)] loop. *)
Definition loop_body (st : LoopState) (token : TokenInfo) : LoopState :=
  let st1 :=
    if _should_break_line (st_current_line st) token
                          (st_current_line_tokens st)
    then reset_line (close_page (close_line st))
    else st in
  add_token st1 token.

Definition initial_state : LoopState :=
  {| st_pages := [];
     st_current_page := new_page 1;
     st_current_line := [];
     st_current_line_tokens := [];
     st_line_offset := 0 |}.

(** After the loop: the last line (the running offset is not advanced
    here) and the last page. *)
Definition last_line (st : LoopState) : PageLayout :=
  if truthy (st_current_line st) then
    page_append_line (st_current_page st)
      (new_line_info (st_current_line st) (st_line_offset st)
                     (st_current_line_tokens st))
      (len (st_current_line st))
  else st_current_page st.

Definition last_page (pages : list PageLayout) (current_page : PageLayout)
    : list PageLayout :=
  match lines current_page with
  | [] => pages
  | _ :: _ => pages ++ [current_page]
  end.

(** [_generate_pages] up to the call of [_add_entities_to_pages]. *)
Definition build_pages (tokens : list TokenInfo) : list PageLayout :=
  let st := fold_left loop_body tokens initial_state in
  last_page (st_pages st) (last_line st).

End Engine.

(** ** Entity projection *)

(** [lst.index(x)]: the position of the first element equal to [x].
    Python raises [ValueError] when there is none; the projection only
    asks for a line it is iterating over, so the fall-through value
    [length lst] is never produced there (lemma [index_lt]). *)
Fixpoint index {A} `{EqDecision A} (x : A) (lst : list A) : nat :=
  match lst with
  | [] => O
  | y :: rest => if decide (y = x) then O else S (index x rest)
  end.

(** The test of [_add_entities_to_pages] on one line. *)
Definition overlaps (entity : EntityInfo) (line : LineInfo) : bool :=
  let line_start := li_offset line in
  let line_end := line_start + li_length line in
  ((ent_start entity >=? line_start) && (ent_start entity <? line_end))
  || ((ent_end entity >? line_start) && (ent_end entity <=? line_end)).

(** The loop [for line in page.lines: ... break] over the lines still to
    visit; [page_lines] is the whole of [page.lines]. *)
Fixpoint scan_lines (page_lines : list LineInfo) (entity : EntityInfo)
    (rest : list LineInfo) : option PageEntity :=
  match rest with
  | [] => None
  | line :: rest' =>
      if overlaps entity line then
        let line_start := li_offset line in
        Some {| pe_text := ent_text entity;
                pe_type := ent_type entity;
                pe_start := ent_start entity - line_start;
                pe_end := ent_end entity - line_start;
                pe_line_idx := Z.of_nat (index line page_lines) |}
      else scan_lines page_lines entity rest'
  end.

(** The loop [for entity in entities] of one page, with its accumulator
    [page_entities]. *)
Definition page_entities_of (page : PageLayout) (ents : list EntityInfo)
    : list PageEntity :=
  fold_left
    (fun page_entities entity =>
       match scan_lines (lines page) entity (lines page) with
       | Some entity_info => page_entities ++ [entity_info]
       | None => page_entities
       end)
    ents [].

Definition set_entities (page : PageLayout) (es : list PageEntity) : PageLayout :=
  {| page_id := page_id page;
     lines := lines page;
     entities := es;
     total_chars := total_chars page |}.

(** Every page object is updated in place; the list keeps its order. *)
Definition _add_entities_to_pages (pages : list PageLayout)
    (ents : list EntityInfo) : list PageLayout :=
  map (fun page => set_entities page (page_entities_of page ents)) pages.

(** The dictionary [entity_positions] that [_generate_pages] fills and
    never reads: position [i] maps to the last entity covering it. *)
Definition entity_positions (ents : list EntityInfo) : gmap Z EntityInfo :=
  fold_left
    (fun m entity =>
       fold_left (fun m' i => <[i := entity]> m')
                 (map (fun k => ent_start entity + Z.of_nat k)
                      (seq 0 (Z.to_nat (ent_end entity - ent_start entity))))
                 m)
    ents ∅.

(** [_generate_pages]: the loop over the tokens, the last line and the
    last page, then the projection of the entities.  The dictionary
    [entity_positions] is filled first and not read afterwards, so the
    pages do not depend on it. *)
Definition _generate_pages (chars_per_line lines_per_page : Z)
    (tokens : list TokenInfo) (ents : list EntityInfo) : list PageLayout :=
  _add_entities_to_pages (build_pages chars_per_line lines_per_page tokens) ents.

(** [sum(xs)] over integers. *)
Definition sum_Z (xs : list Z) : Z := fold_left Z.add xs 0.

(** The [metadata] and [pages] of [create_layout_json], from the tokens
    and entities that [process_text] delivered. *)
Record LayoutData := mkLayoutData {
  md_total_pages : Z;
  md_chars_per_line : Z;
  md_lines_per_page : Z;
  md_total_chars : Z;
  ld_pages : list PageLayout
}.

Definition create_layout_json (chars_per_line lines_per_page : Z)
    (tokens : list TokenInfo) (ents : list EntityInfo) : LayoutData :=
  let pages := _generate_pages chars_per_line lines_per_page tokens ents in
  {| md_total_pages := Z.of_nat (length pages);
     md_chars_per_line := chars_per_line;
     md_lines_per_page := lines_per_page;
     md_total_chars := sum_Z (map total_chars pages);
     ld_pages := pages |}.

(** All the lines of a document, in page and line order. *)
Definition all_lines (pages : list PageLayout) : list LineInfo :=
  concat (map lines pages).

(** ** Offset tracker *)

(** An item of the recognizer's output: [word], [ner], [idx]. *)
Record NerToken := mkNerToken {
  ner_word : pystr;
  ner_ner : pystr;
  ner_idx : Z * Z
}.

(** [s.startswith(sub)] *)
Fixpoint starts_with (sub s : pystr) : bool :=
  match sub, s with
  | [], _ => true
  | _ :: _, [] => false
  | c :: sub', d :: s' => (c =? d)%N && starts_with sub' s'
  end.

(** Lowest position of [sub] in [s], counted from [base]; [-1] if none. *)
Fixpoint find_from (sub s : pystr) (base : Z) : Z :=
  if starts_with sub s then base
  else match s with
       | [] => -1
       | _ :: s' => find_from sub s' (base + 1)
       end.

(** [s.find(sub, start)], with Python's treatment of a negative or
    too large [start]. *)
Definition find (s sub : pystr) (start : Z) : Z :=
  let start := if start <? 0 then Z.max 0 (start + len s) else start in
  if start >? len s then -1
  else find_from sub (drop (Z.to_nat start) s) start.

Definition entity_map_of (ner : list NerToken) : gmap (Z * Z) pystr :=
  fold_left (fun m entity => <[ner_idx entity := ner_ner entity]> m) ner ∅.

(** One turn of [for word, pos_tag in zip(ws, pos)]; the state is
    [(tokens, current_pos)]. *)
Definition build_token_step (text : pystr) (entity_map : gmap (Z * Z) pystr)
    (st : list TokenInfo * Z) (wp : pystr * pystr) : list TokenInfo * Z :=
  let '(tokens, current_pos) := st in
  let '(word, pos_tag) := wp in
  let start := find text word current_pos in
  let start := if start =? -1 then current_pos else start in
  let end_ := start + len word in
  let is_entity := bool_decide (is_Some (entity_map !! (start, end_))) in
  let entity_type := entity_map !! (start, end_) in
  let token :=
    {| tok_text := word; tok_pos := pos_tag; tok_start := start;
       tok_end := end_; tok_is_entity := is_entity;
       tok_entity_type := entity_type |} in
  (tokens ++ [token], end_).

Definition _build_tokens (text : pystr) (ws pos : list pystr)
    (ner : list NerToken) : list TokenInfo :=
  fst (fold_left (build_token_step text (entity_map_of ner))
                 (combine ws pos) ([], 0)).

Definition _extract_entities (ner_result : list NerToken) : list EntityInfo :=
  map (fun entity =>
         {| ent_text := ner_word entity; ent_type := ner_ner entity;
            ent_start := fst (ner_idx entity);
            ent_end := snd (ner_idx entity) |})
      ner_result.

(** ** Plain-text serializers *)

(** [str(n)] for an integer. *)
Definition str_of_int (n : Z) : pystr :=
  lit (NilZero.string_of_int (Z.to_int n)).

(** [format(n, "0Wd")]: sign first, then zeros up to the width [W], then
    the digits; never truncated. *)
Definition format_0d (width : nat) (n : Z) : pystr :=
  let sign := if n <? 0 then lit "-" else [] in
  let digits := lit (NilZero.string_of_uint (N.to_uint (Z.abs_N n))) in
  sign ++ repeat 48%N (width - length sign - length digits) ++ digits.

Definition newline : pystr := [10%N].

(** The part of [CkipProcessor._generate_txt_content] that builds the
    list [lines]. *)
Definition txt_page_lines (chars_per_line : Z) (page : PageLayout) : list pystr :=
  (if page_id page >? 1 then
     [ [];
       repeat_str (lit "=") chars_per_line;
       [31532%N] ++ lit " " ++ str_of_int (page_id page) ++ lit " " ++ [39029%N];
       repeat_str (lit "=") chars_per_line;
       [] ]
   else [])
  ++ map li_text (lines page)
  ++ [ [] ].

Definition _generate_txt_content_lines (chars_per_line : Z)
    (pages : list PageLayout) : list pystr :=
  fold_left (fun lines_ page => lines_ ++ txt_page_lines chars_per_line page)
            pages [].

(** Modelled from the spec: the statement that closes
    [CkipProcessor._generate_txt_content] lies past the end of the source
    file as it is available; the text is newline-joined. *)
Definition _generate_txt_content (chars_per_line : Z)
    (pages : list PageLayout) : pystr :=
  join newline (_generate_txt_content_lines chars_per_line pages).

(** [generate_txt_content] of [test_txt_format_simple.py], which stands
    in for the method above in the repository's own test. *)
Definition page_start_tag (pid : Z) : pystr :=
  lit "<PAGE_" ++ format_0d 3 pid ++ lit "_START>".

Definition page_end_tag (pid : Z) : pystr :=
  lit "<PAGE_" ++ format_0d 3 pid ++ lit "_END>".

Definition line_tag (pid i : Z) : pystr :=
  lit "<LINE_" ++ format_0d 3 pid ++ lit "_" ++ format_0d 2 i ++ lit ">".

(** [for i, line_info in enumerate(page.lines, 1)] with the accumulator
    [lines]. *)
Fixpoint tagged_lines_loop (pid : Z) (i : Z) (rest : list LineInfo)
    (acc : list pystr) : list pystr :=
  match rest with
  | [] => acc
  | line_info :: rest' =>
      tagged_lines_loop pid (i + 1) rest'
        (acc ++ [line_tag pid i ++ lit " " ++ li_text line_info])
  end.

Definition tagged_page_step (acc : list pystr) (page : PageLayout) : list pystr :=
  let acc := if page_id page >? 1 then acc ++ [ [] ] else acc in
  let acc := acc ++ [page_start_tag (page_id page)] in
  let acc := acc ++ [ [] ] in
  let acc := tagged_lines_loop (page_id page) 1 (lines page) acc in
  let acc := acc ++ [page_end_tag (page_id page)] in
  acc ++ [ [] ].

Definition generate_txt_content (pages : list PageLayout) : pystr :=
  join newline (fold_left tagged_page_step pages []).

(** *** Sample data *)

Definition tok (s : string) (a b : Z) : TokenInfo :=
  {| tok_text := lit s; tok_pos := lit "Na"; tok_start := a; tok_end := b;
     tok_is_entity := false; tok_entity_type := None |}.

(** The capacity predicate of the line builder, as the specification
    words it: the line is full when the token no longer fits. *)
Definition capacity_exceeded (chars_per_line : Z) (current_line : pystr)
    (token : TokenInfo) : bool :=
  len current_line + len (tok_text token) >? chars_per_line.

(** The lines a loop state has handed over so far. *)
Definition emitted (st : LoopState) : list LineInfo :=
  all_lines (st_pages st) ++ lines (st_current_page st).

(** The line a break hands over, if any. *)
Definition closed_line (st : LoopState) : list LineInfo :=
  if truthy (st_current_line st) then
    [new_line_info (st_current_line st) (st_line_offset st)
                   (st_current_line_tokens st)]
  else [].

(** Consecutive lines: each starts where the one before it ends. *)
Fixpoint chained (o : Z) (ls : list LineInfo) : Prop :=
  match ls with
  | [] => True
  | l :: rest => li_offset l = o /\ chained (o + li_length l) rest
  end.

Definition end_of (o : Z) (ls : list LineInfo) : Z :=
  fold_left (fun a l => a + li_length l) ls o.

(** *** Loop invariants

    [seen] is the part of the token stream the loop has consumed. *)

(** Characters: the lines handed over and the buffer make up the text of
    the tokens seen. *)
Definition text_inv (seen : list TokenInfo) (st : LoopState) : Prop :=
  concat (map li_text (emitted st)) ++ st_current_line st
  = concat (map tok_text seen).

(** A line as the builder makes it: not empty, its [length] the length
    of its text, its text the texts of its tokens. *)
Definition line_wf (l : LineInfo) : Prop :=
  li_text l <> []
  /\ li_length l = len (li_text l)
  /\ li_text l = concat (map tok_text (li_tokens l)).

Definition wf_inv (st : LoopState) : Prop :=
  Forall line_wf (emitted st)
  /\ st_current_line st = concat (map tok_text (st_current_line_tokens st)).

(** Offsets: the lines handed over are consecutive from 0 and the
    running offset is where the last one ends. *)
Definition offset_inv (st : LoopState) : Prop :=
  chained 0 (emitted st) /\ st_line_offset st = end_of 0 (emitted st).

(** Page numbers: the closed pages are numbered from 1 and the open page
    carries the next number. *)
Definition ids_inv (st : LoopState) : Prop :=
  map page_id (st_pages st) = map Z.of_nat (seq 1 (length (st_pages st)))
  /\ page_id (st_current_page st) = Z.of_nat (length (st_pages st)) + 1.

(** Page sizes: the closed pages are full and the open page is not. *)
Definition size_inv (lpp : Z) (st : LoopState) : Prop :=
  Forall (fun p => Z.of_nat (length (lines p)) = lpp) (st_pages st)
  /\ Z.of_nat (length (lines (st_current_page st))) < lpp.

(** Capacity: a line within the capacity, or made of one token. *)
Definition line_fits (cpl : Z) (l : LineInfo) : Prop :=
  len (li_text l) <= cpl \/ exists t, li_tokens l = [t].

Definition cap_inv (cpl : Z) (st : LoopState) : Prop :=
  Forall (line_fits cpl) (emitted st)
  /\ (st_current_line st = []
      \/ len (st_current_line st) <= cpl
      \/ exists t, st_current_line_tokens st = [t]).

(** A token alone on its line, whole. *)
Definition alone_on (t : TokenInfo) (l : LineInfo) : Prop :=
  li_tokens l = [t] /\ li_text l = tok_text t.

(** Long tokens: each one seen so far is alone on a line handed over, or
    alone in the buffer. *)
Definition big_inv (cpl : Z) (seen : list TokenInfo) (st : LoopState) : Prop :=
  forall t : TokenInfo,
    In t seen -> len (tok_text t) > cpl ->
    (exists l, In l (emitted st) /\ alone_on t l)
    \/ (st_current_line_tokens st = [t] /\ st_current_line st = tok_text t).

(** *** Entity projection, page by page *)

(** Some line of the page overlaps the entity. *)
Definition page_overlaps (entity : EntityInfo) (page : PageLayout) : bool :=
  existsb (overlaps entity) (lines page).

(** The record an entity gets on a line of a page. *)
Definition entity_on_line (page : PageLayout) (entity : EntityInfo)
    (line : LineInfo) : PageEntity :=
  {| pe_text := ent_text entity;
     pe_type := ent_type entity;
     pe_start := ent_start entity - li_offset line;
     pe_end := ent_end entity - li_offset line;
     pe_line_idx := Z.of_nat (index line (lines page)) |}.

(** The record of an entity on a page: from the first line of the page
    that overlaps it, if there is one. *)
Definition entity_on_page (page : PageLayout) (entity : EntityInfo)
    : option PageEntity :=
  option_map (entity_on_line page entity)
             (List.find (overlaps entity) (lines page)).

(** All the projected records of a document, in page order. *)
Definition all_entities (pages : list PageLayout) : list PageEntity :=
  concat (map entities pages).

Definition count_if {A} (f : A -> bool) (l : list A) : nat :=
  length (List.filter f l).

(** Without a positive capacity: the lines that a break or the end of
    the stream would leave are the tokens seen that carry text, one on
    each line. *)
Definition single_inv (seen : list TokenInfo) (st : LoopState) : Prop :=
  map li_tokens (emitted st ++ closed_line st)
  = map (fun t => [t]) (List.filter (fun t => truthy (tok_text t)) seen).

(** Without a positive page size: the closed pages hold one line at
    most and the open page none. *)
Definition short_inv (st : LoopState) : Prop :=
  Forall (fun p => (length (lines p) <= 1)%nat) (st_pages st)
  /\ lines (st_current_page st) = [].

(** *** Offset tracker *)

(** Where the tracker puts a word when the previous token ends at [o]:
    at the place [find] reports, or at [o] when [find] reports none. *)
Definition located (text : pystr) (o : Z) (t : TokenInfo) : Prop :=
  tok_start t
  = (if find text (tok_text t) o =? -1 then o else find text (tok_text t) o)
  /\ tok_end t = tok_start t + len (tok_text t).

Fixpoint tracked (text : pystr) (o : Z) (toks : list TokenInfo) : Prop :=
  match toks with
  | [] => True
  | t :: rest => located text o t /\ tracked text (tok_end t) rest
  end.

(** The end of the last token, or [o] when there is none. *)
Definition last_end (o : Z) (toks : list TokenInfo) : Z :=
  fold_left (fun _ t => tok_end t) toks o.

Definition track_inv (text : pystr) (seen : list (pystr * pystr))
    (st : list TokenInfo * Z) : Prop :=
  tracked text 0 (fst st)
  /\ snd st = last_end 0 (fst st)
  /\ map tok_text (fst st) = map fst seen.

(** *** The positional rendering, page by page *)

(** [enumerate(xs, i)] *)
Fixpoint enumerate_from {A} (i : Z) (xs : list A) : list (Z * A) :=
  match xs with
  | [] => []
  | x :: rest => (i, x) :: enumerate_from (i + 1) rest
  end.

(** One page as the specification describes it: the start marker, the
    numbered lines, the end marker; blank items around them as
    [generate_txt_content] places them. *)
Definition tagged_page (page : PageLayout) : list pystr :=
  (if page_id page >? 1 then [ [] ] else [])
  ++ [page_start_tag (page_id page); []]
  ++ map (fun il => line_tag (page_id page) (fst il) ++ lit " "
                    ++ li_text (snd il))
         (enumerate_from 1 (lines page))
  ++ [page_end_tag (page_id page); []].

(** *** Sample documents *)

(** Two tokens, one line each, one line per page; an entity that runs
    from the first token into the second. *)
Definition two_page_tokens : list TokenInfo :=
  [tok "ABC" 0 3; tok "DEFG" 3 7].

Definition crossing_entity : EntityInfo :=
  {| ent_text := lit "CDEF"; ent_type := lit "PERSON";
     ent_start := 2; ent_end := 6 |}.

Definition two_pages : list PageLayout :=
  _generate_pages 4 1 two_page_tokens [crossing_entity].

(** *** Further invariants of the loop *)

(** A token that carries text. *)
Definition has_text (t : TokenInfo) : bool := truthy (tok_text t).

(** The tokens a loop state still holds: those of the lines handed over,
    then those in the buffer. *)
Definition kept (st : LoopState) : list TokenInfo :=
  concat (map li_tokens (emitted st)) ++ st_current_line_tokens st.

(** Tokens: the tokens held are tokens seen, in their order, and none
    that carries text is missing. *)
Definition tokens_inv (seen : list TokenInfo) (st : LoopState) : Prop :=
  sublist (kept st) seen
  /\ List.filter has_text (kept st) = List.filter has_text seen.

(** Character counts: a page's [total_chars] is the sum of the lengths
    of its lines. *)
Definition page_total_ok (p : PageLayout) : Prop :=
  total_chars p = sum_Z (map li_length (lines p)).

Definition totals_inv (st : LoopState) : Prop :=
  Forall page_total_ok (st_pages st) /\ page_total_ok (st_current_page st).

(** The first token of line [b] would not have fitted at the end of line
    [a]. *)
Definition no_room (cpl : Z) (a b : LineInfo) : Prop :=
  exists t, head (li_tokens b) = Some t
            /\ li_length a + len (tok_text t) > cpl.

(** Greedy filling of consecutive lines. *)
Fixpoint greedy (cpl : Z) (ls : list LineInfo) : Prop :=
  match ls with
  | [] => True
  | a :: rest =>
      match rest with
      | [] => True
      | b :: _ => no_room cpl a b
      end /\ greedy cpl rest
  end.

(** The line that a break or the end of the stream would hand over now
    starts with a token that did not fit on the last line handed over. *)
Definition greedy_inv (cpl : Z) (st : LoopState) : Prop :=
  greedy cpl (emitted st)
  /\ (st_current_line_tokens st = [] -> emitted st = [])
  /\ (forall a, last (emitted st) = Some a ->
      exists t, head (st_current_line_tokens st) = Some t
                /\ li_length a + len (tok_text t) > cpl).

(** *** Spans *)

(** [s[a:b]] for [0 <= a <= b]. *)
Definition slice (s : pystr) (a b : Z) : pystr :=
  take (Z.to_nat (b - a)) (drop (Z.to_nat a) s).

(** [word] stands in [text] at position [k]. *)
Definition occurs_at (text word : pystr) (k : Z) : Prop :=
  0 <= k /\ k + len word <= len text
  /\ slice text k (k + len word) = word.

(** Contiguous spans from [o] on: every token starts where the one
    before it ends and is as long as its text. *)
Fixpoint tiled (o : Z) (toks : list TokenInfo) : Prop :=
  match toks with
  | [] => True
  | t :: rest =>
      tok_start t = o /\ tok_end t = o + len (tok_text t)
      /\ tiled (tok_end t) rest
  end.

(** The entity fields of a token agree with the dictionary of spans. *)
Definition flags_ok (entity_map : gmap (Z * Z) pystr) (t : TokenInfo) : Prop :=
  tok_is_entity t
  = bool_decide (is_Some (entity_map !! (tok_start t, tok_end t)))
  /\ tok_entity_type t = entity_map !! (tok_start t, tok_end t).

(** The tokens the tracker makes when every word is found where the
    previous one ends. *)
Fixpoint tile_tokens (entity_map : gmap (Z * Z) pystr) (o : Z)
    (wps : list (pystr * pystr)) : list TokenInfo :=
  match wps with
  | [] => []
  | (word, pos_tag) :: rest =>
      {| tok_text := word; tok_pos := pos_tag; tok_start := o;
         tok_end := o + len word;
         tok_is_entity :=
           bool_decide (is_Some (entity_map !! (o, o + len word)));
         tok_entity_type := entity_map !! (o, o + len word) |}
      :: tile_tokens entity_map (o + len word) rest
  end.

(** A line that begins where its first token begins and ends where its
    last token ends. *)
Definition anchored (l : LineInfo) : Prop :=
  exists t t',
    head (li_tokens l) = Some t /\ li_offset l = tok_start t
    /\ last (li_tokens l) = Some t'
    /\ li_offset l + li_length l = tok_end t'.

(** For a stream of contiguous spans: the buffer begins at the running
    offset and ends where the tokens seen end. *)
Definition anchor_inv (seen : list TokenInfo) (st : LoopState) : Prop :=
  tiled 0 seen ->
  st_line_offset st + len (st_current_line st) = last_end 0 seen
  /\ (forall t, head (st_current_line_tokens st) = Some t ->
      tok_start t = st_line_offset st)
  /\ (forall t, last (st_current_line_tokens st) = Some t ->
      tok_end t = last_end 0 seen)
  /\ Forall anchored (emitted st).

(** ** The processed text *)

(** [s.replace(old, new)] for a non-empty [old]: occurrences are taken
    from the left and do not overlap; [skip] counts the characters of an
    occurrence still to pass over. *)
Fixpoint replace_go (old new : pystr) (skip : nat) (s : pystr) : pystr :=
  match s with
  | [] => []
  | c :: s' =>
      match skip with
      | S n => replace_go old new n s'
      | O =>
          if starts_with old s
          then new ++ replace_go old new (length old - 1) s'
          else c :: replace_go old new 0 s'
      end
  end.

(** [s.replace(old, new)]; an empty [old] puts [new] before every
    character and at the end. *)
Definition replace (s old new : pystr) : pystr :=
  match old with
  | [] => new ++ flat_map (fun c => c :: new) s
  | _ :: _ => replace_go old new 0 s
  end.

(** [self.punctuation_map] in the order of its keys, as the literal of
    [__init__] reads: fourteen marks with their ASCII forms, the double
    quote (written twice, mapped to itself), and the seven characters
    colon, space, double quote, apostrophe, double quote, comma, space
    that the three apostrophes of the literal turn into one key, mapped
    to the apostrophe. *)
Definition punctuation_map : list (pystr * pystr) :=
  [ ([65292%N], lit ","); ([12290%N], lit "."); ([65281%N], lit "!");
    ([65311%N], lit "?"); ([65307%N], lit ";"); ([65306%N], lit ":");
    ([34%N], [34%N]);
    ([58%N; 32%N; 34%N; 39%N; 34%N; 44%N; 32%N], [39%N]);
    ([65288%N], lit "("); ([65289%N], lit ")");
    ([12304%N], lit "["); ([12305%N], lit "]");
    ([12298%N], lit "<"); ([12299%N], lit ">");
    ([12289%N], lit ","); ([8230%N], lit "...") ].

(** The loop over [punctuation_map.items()]. *)
Definition apply_map (m : list (pystr * pystr)) (text : pystr) : pystr :=
  fold_left (fun text kv => replace text (fst kv) (snd kv)) m text.

Definition normalize_punctuation (text : pystr) : pystr :=
  apply_map punctuation_map text.

(** [sorted(tokens, key=lambda x: x.start)]: the sort is stable, and the
    stable arrangement is the one that insertion from the right gives. *)
Fixpoint insert_by_start (t : TokenInfo) (l : list TokenInfo) : list TokenInfo :=
  match l with
  | [] => [t]
  | u :: l' =>
      if tok_start t <=? tok_start u then t :: u :: l'
      else u :: insert_by_start t l'
  end.

Definition sorted_by_start (tokens : list TokenInfo) : list TokenInfo :=
  fold_right insert_by_start [] tokens.

Definition _generate_processed_text (tokens : list TokenInfo) : pystr :=
  concat (map (fun token => normalize_punctuation (tok_text token))
              (sorted_by_start tokens)).

(** The marks of the map that are not ASCII. *)
Definition wide_marks : list codepoint :=
  [ 65292%N; 12290%N; 65281%N; 65311%N; 65307%N; 65306%N; 65288%N;
    65289%N; 12304%N; 12305%N; 12298%N; 12299%N; 12289%N; 8230%N ].

Definition inb (c : codepoint) (s : pystr) : bool :=
  existsb (N.eqb c) s.

(** Some entry of the map replaces the character [c] by a text without
    [c], and no later entry writes [c]. *)
Fixpoint removes (c : codepoint) (m : list (pystr * pystr)) : bool :=
  match m with
  | [] => false
  | (old, new) :: m' =>
      removes c m'
      || (match old with [k] => N.eqb k c | _ => false end
          && negb (inb c new)
          && forallb (fun kv => negb (inb c (snd kv))) m')
  end.

(** Starts that never go down. *)
Fixpoint ascending (o : Z) (toks : list TokenInfo) : Prop :=
  match toks with
  | [] => True
  | t :: rest => o <= tok_start t /\ ascending (tok_start t) rest
  end.

(** ** From a text to a layout *)

(** The dictionary that [process_text] returns; the key
    [original_text] is absent for a blank text. *)
Record ProcessResult := mkProcessResult {
  pr_tokens : list TokenInfo;
  pr_entities : list EntityInfo;
  pr_processed_text : pystr;
  pr_original_text : option pystr
}.

Section Annotators.

(** [str.isspace] on one character, and the three drivers of the
    annotation library on one sentence: the word segmenter, the tagger
    (fed with the words) and the entity recognizer.  They are outside of
    the repository; whatever they raise is passed on by [process_text]
    and has no place here. *)
Variable isspace : codepoint -> bool.
Variable ws_driver : pystr -> list pystr.
Variable pos_driver : list pystr -> list pystr.
Variable ner_driver : pystr -> list NerToken.

Fixpoint lstrip (s : pystr) : pystr :=
  match s with
  | [] => []
  | c :: s' => if isspace c then lstrip s' else s
  end.

(** [s.strip()] *)
Definition strip (s : pystr) : pystr := rev (lstrip (rev (lstrip s))).

Definition process_text (text : pystr) : ProcessResult :=
  if negb (truthy (strip text)) then
    {| pr_tokens := []; pr_entities := []; pr_processed_text := [];
       pr_original_text := None |}
  else
    let ws_result := ws_driver text in
    let pos_result := pos_driver ws_result in
    let ner_result := ner_driver text in
    let tokens := _build_tokens text ws_result pos_result ner_result in
    let ents := _extract_entities ner_result in
    {| pr_tokens := tokens; pr_entities := ents;
       pr_processed_text := _generate_processed_text tokens;
       pr_original_text := Some text |}.

(** [create_layout_json] from the text on, up to the writing of the
    file. *)
Definition create_layout_json_of_text (chars_per_line lines_per_page : Z)
    (text : pystr) : LayoutData :=
  let result := process_text text in
  create_layout_json chars_per_line lines_per_page
                     (pr_tokens result) (pr_entities result).

End Annotators.

(** *** Sample annotators *)

Definition space_only (c : codepoint) : bool := (c =? 32)%N.
Definition two_words (text : pystr) : list pystr := [lit "ab"; lit "c"].
Definition all_nouns (ws : list pystr) : list pystr := map (fun _ => lit "N") ws.
Definition no_entity (text : pystr) : list NerToken := [].

(** ** The checks of the test on the rendering *)

(** [s.split(sep)] for a separator of one character. *)
Fixpoint split_on (sep : codepoint) (s : pystr) : list pystr :=
  match s with
  | [] => [ [] ]
  | c :: s' =>
      if (c =? sep)%N then [] :: split_on sep s'
      else match split_on sep s' with
           | [] => [ [c] ]
           | piece :: pieces => (c :: piece) :: pieces
           end
  end.

(** [s.endswith(suffix)] *)
Definition ends_with (suffix s : pystr) : bool :=
  starts_with (rev suffix) (rev s).

(** The three lists that [test_txt_format_simple] filters out of
    [txt_content.split('\n')]. *)
Definition is_page_start (line : pystr) : bool :=
  starts_with (lit "<PAGE_") line && ends_with (lit "_START>") line.

Definition is_page_end (line : pystr) : bool :=
  starts_with (lit "<PAGE_") line && ends_with (lit "_END>") line.

Definition is_line_tag (line : pystr) : bool :=
  starts_with (lit "<LINE_") line.

Definition page_starts (txt_content : pystr) : list pystr :=
  List.filter is_page_start (split_on 10%N txt_content).

Definition page_ends (txt_content : pystr) : list pystr :=
  List.filter is_page_end (split_on 10%N txt_content).

Definition line_tags (txt_content : pystr) : list pystr :=
  List.filter is_line_tag (split_on 10%N txt_content).

(** The item of one line in the rendering of a page. *)
Definition line_item (pid : Z) (il : Z * LineInfo) : pystr :=
  line_tag pid (fst il) ++ lit " " ++ li_text (snd il).

(** ** Reading a number back from a marker *)

Definition digit_step (acc : N) (c : codepoint) : N :=
  (10 * acc + (c - 48))%N.

(** The number that a run of decimal digits spells. *)
Definition digits_value (s : pystr) : N := fold_left digit_step s 0%N.

(** The integer that an optional minus sign and digits spell. *)
Definition read_int (s : pystr) : Z :=
  match s with
  | 45%N :: digits => - Z.of_N (digits_value digits)
  | _ => Z.of_N (digits_value s)
  end.

(** * Properties *)

(** ** Generic facts *)

Lemma fold_left_invariant {A B} (f : A -> B -> A) (P : A -> Prop) :
  (forall a b, P a -> P (f a b)) ->
  forall l a, P a -> P (fold_left f l a).
Proof.
  intros Hstep l. induction l as [|b l IH]; intros a Ha; simpl; auto.
Qed.

Lemma fold_left_invariant_prefix {A B} (f : A -> B -> A)
    (Q : list B -> A -> Prop) :
  (forall seen a b, Q seen a -> Q (seen ++ [b]) (f a b)) ->
  forall l seen a, Q seen a -> Q (seen ++ l) (fold_left f l a).
Proof.
  intros Hstep l. induction l as [|b l IH]; intros seen a Ha; simpl.
  - now rewrite app_nil_r.
  - replace (seen ++ b :: l) with ((seen ++ [b]) ++ l)
      by now rewrite <- app_assoc.
    apply IH, Hstep, Ha.
Qed.

Lemma truthy_true (s : pystr) : truthy s = true <-> s <> [].
Proof. destruct s; simpl; split; congruence. Qed.

Lemma truthy_false (s : pystr) : truthy s = false <-> s = [].
Proof. destruct s; simpl; split; congruence. Qed.

Lemma len_app (a b : pystr) : len (a ++ b) = len a + len b.
Proof. unfold len. rewrite length_app. lia. Qed.

Lemma len_nonneg (a : pystr) : 0 <= len a.
Proof. unfold len. lia. Qed.

Lemma len_zero (a : pystr) : len a = 0 <-> a = [].
Proof.
  unfold len. destruct a; simpl; split; try congruence; try lia.
Qed.

Lemma sum_Z_shift (xs : list Z) (a : Z) :
  fold_left Z.add xs a = a + sum_Z xs.
Proof.
  unfold sum_Z. revert a. induction xs as [|x xs IH]; intros a; simpl.
  - lia.
  - rewrite (IH (a + x)), (IH (0 + x)). lia.
Qed.

Lemma sum_Z_cons (x : Z) (xs : list Z) : sum_Z (x :: xs) = x + sum_Z xs.
Proof. unfold sum_Z at 1. simpl. apply sum_Z_shift. Qed.

Lemma sum_Z_len_concat (ss : list pystr) :
  sum_Z (map len ss) = len (concat ss).
Proof.
  induction ss as [|s ss IH]; simpl.
  - reflexivity.
  - rewrite sum_Z_cons, len_app, IH. reflexivity.
Qed.

Lemma all_lines_app (ps qs : list PageLayout) :
  all_lines (ps ++ qs) = all_lines ps ++ all_lines qs.
Proof. unfold all_lines. now rewrite map_app, concat_app. Qed.

Lemma all_lines_single (p : PageLayout) : all_lines [p] = lines p.
Proof. unfold all_lines. simpl. apply app_nil_r. Qed.

(** ** The line-break decision *)

Lemma should_break_line_capacity (cpl : Z) (cur : pystr) (token : TokenInfo)
    (toks : list TokenInfo) :
  _should_break_line cpl cur token toks = capacity_exceeded cpl cur token.
Proof.
  unfold _should_break_line, capacity_exceeded.
  destruct (len cur + len (tok_text token) >? cpl); [reflexivity|].
  now destruct (bool_decide _ && _).
Qed.

Lemma capacity_exceeded_true (cpl : Z) (cur : pystr) (token : TokenInfo) :
  capacity_exceeded cpl cur token = true
  <-> len cur + len (tok_text token) > cpl.
Proof.
  unfold capacity_exceeded. rewrite Z.gtb_ltb, Z.ltb_lt. lia.
Qed.

Lemma capacity_exceeded_false (cpl : Z) (cur : pystr) (token : TokenInfo) :
  capacity_exceeded cpl cur token = false
  <-> len cur + len (tok_text token) <= cpl.
Proof.
  unfold capacity_exceeded. rewrite Z.gtb_ltb, Z.ltb_ge. lia.
Qed.

(** C9: the line-break check answers exactly as the capacity predicate
    does, whatever the current line, the token and the token list are;
    the punctuation branch never changes the answer. *)
Theorem should_break_line_is_capacity :
  forall (chars_per_line : Z) (current_line : pystr) (token : TokenInfo)
         (current_tokens : list TokenInfo),
    _should_break_line chars_per_line current_line token current_tokens
    = capacity_exceeded chars_per_line current_line token
    /\ (_should_break_line chars_per_line current_line token current_tokens
        = true
        <-> len current_line + len (tok_text token) > chars_per_line).
Proof.
  intros cpl cur token toks. split.
  - apply should_break_line_capacity.
  - rewrite should_break_line_capacity. apply capacity_exceeded_true.
Qed.

(** ** Projection keeps lines and page numbers *)

Lemma add_entities_lines (pages : list PageLayout) (ents : list EntityInfo) :
  map lines (_add_entities_to_pages pages ents) = map lines pages.
Proof.
  unfold _add_entities_to_pages. rewrite map_map. now apply map_ext.
Qed.

Lemma add_entities_page_id (pages : list PageLayout) (ents : list EntityInfo) :
  map page_id (_add_entities_to_pages pages ents) = map page_id pages.
Proof.
  unfold _add_entities_to_pages. rewrite map_map. now apply map_ext.
Qed.

Lemma add_entities_all_lines (pages : list PageLayout) (ents : list EntityInfo) :
  all_lines (_add_entities_to_pages pages ents) = all_lines pages.
Proof. unfold all_lines. now rewrite add_entities_lines. Qed.

Lemma add_entities_length (pages : list PageLayout) (ents : list EntityInfo) :
  length (_add_entities_to_pages pages ents) = length pages.
Proof. unfold _add_entities_to_pages. apply length_map. Qed.

(** ** One turn of the loop *)

Section LoopFacts.

Variables cpl lpp : Z.

Lemma emitted_close_line (st : LoopState) :
  emitted (close_line st) = emitted st ++ closed_line st.
Proof.
  unfold close_line, closed_line, emitted.
  destruct (truthy (st_current_line st)); simpl.
  - now rewrite app_assoc.
  - now rewrite app_nil_r.
Qed.

Lemma emitted_close_page (st : LoopState) :
  emitted (close_page lpp st) = emitted st.
Proof.
  unfold close_page, emitted.
  destruct (_ >=? lpp); simpl; [|reflexivity].
  now rewrite all_lines_app, all_lines_single, app_nil_r.
Qed.

Lemma emitted_loop_body (st : LoopState) (t : TokenInfo) :
  emitted (loop_body cpl lpp st t)
  = emitted st
    ++ (if _should_break_line cpl (st_current_line st) t
                              (st_current_line_tokens st)
        then closed_line st else []).
Proof.
  unfold loop_body.
  destruct (_should_break_line _ _ _ _).
  - change (emitted (add_token (reset_line (close_page lpp (close_line st))) t))
      with (emitted (close_page lpp (close_line st))).
    now rewrite emitted_close_page, emitted_close_line.
  - change (emitted (add_token st t)) with (emitted st).
    now rewrite app_nil_r.
Qed.

Lemma line_close_line (st : LoopState) :
  st_current_line (close_line st) = st_current_line st
  /\ st_current_line_tokens (close_line st) = st_current_line_tokens st
  /\ st_line_offset (close_line st)
     = st_line_offset st + len (st_current_line st).
Proof.
  unfold close_line.
  destruct (truthy (st_current_line st)) eqn:E; simpl; auto.
  apply truthy_false in E. rewrite E. repeat split. unfold len. simpl. lia.
Qed.

Lemma line_close_page (st : LoopState) :
  st_current_line (close_page lpp st) = st_current_line st
  /\ st_current_line_tokens (close_page lpp st) = st_current_line_tokens st
  /\ st_line_offset (close_page lpp st) = st_line_offset st.
Proof. unfold close_page. destruct (_ >=? lpp); simpl; auto. Qed.

Lemma current_line_loop_body (st : LoopState) (t : TokenInfo) :
  st_current_line (loop_body cpl lpp st t)
  = (if _should_break_line cpl (st_current_line st) t
                           (st_current_line_tokens st)
     then [] else st_current_line st) ++ tok_text t.
Proof. unfold loop_body. now destruct (_should_break_line _ _ _ _). Qed.

Lemma current_tokens_loop_body (st : LoopState) (t : TokenInfo) :
  st_current_line_tokens (loop_body cpl lpp st t)
  = (if _should_break_line cpl (st_current_line st) t
                           (st_current_line_tokens st)
     then [] else st_current_line_tokens st) ++ [t].
Proof. unfold loop_body. now destruct (_should_break_line _ _ _ _). Qed.

Lemma line_offset_loop_body (st : LoopState) (t : TokenInfo) :
  st_line_offset (loop_body cpl lpp st t)
  = if _should_break_line cpl (st_current_line st) t
                          (st_current_line_tokens st)
    then st_line_offset st + len (st_current_line st)
    else st_line_offset st.
Proof.
  unfold loop_body. destruct (_should_break_line _ _ _ _); simpl; auto.
  destruct (line_close_page (close_line st)) as (_ & _ & ->).
  now destruct (line_close_line st) as (_ & _ & ->).
Qed.

Lemma all_lines_last_page (ps : list PageLayout) (cp : PageLayout) :
  all_lines (last_page ps cp) = all_lines ps ++ lines cp.
Proof.
  unfold last_page. destruct (lines cp) eqn:E.
  - now rewrite app_nil_r.
  - now rewrite all_lines_app, all_lines_single, E.
Qed.

Lemma lines_last_line (st : LoopState) :
  lines (last_line st) = lines (st_current_page st) ++ closed_line st.
Proof.
  unfold last_line, closed_line.
  destruct (truthy (st_current_line st)); simpl; auto.
  now rewrite app_nil_r.
Qed.

(** The lines of the document: those handed over during the loop, then
    the line still in the buffer. *)
Lemma all_lines_build_pages (tokens : list TokenInfo) :
  all_lines (build_pages cpl lpp tokens)
  = emitted (fold_left (loop_body cpl lpp) tokens initial_state)
    ++ closed_line (fold_left (loop_body cpl lpp) tokens initial_state).
Proof.
  unfold build_pages.
  rewrite all_lines_last_page, lines_last_line.
  unfold emitted. now rewrite app_assoc.
Qed.

(** *** Characters are neither lost nor repeated *)

Lemma concat_closed_line (st : LoopState) :
  concat (map li_text (closed_line st)) = st_current_line st.
Proof.
  unfold closed_line. destruct (truthy (st_current_line st)) eqn:E; simpl.
  - apply app_nil_r.
  - apply truthy_false in E. now rewrite E.
Qed.

Lemma text_inv_step (seen : list TokenInfo) (st : LoopState) (t : TokenInfo) :
  text_inv seen st -> text_inv (seen ++ [t]) (loop_body cpl lpp st t).
Proof.
  unfold text_inv. intros H.
  rewrite emitted_loop_body, current_line_loop_body.
  rewrite !map_app, !concat_app. simpl. rewrite app_nil_r, <- H.
  destruct (_should_break_line _ _ _ _).
  - rewrite concat_closed_line. now rewrite <- !app_assoc.
  - simpl. now rewrite app_nil_r, <- !app_assoc.
Qed.

Lemma text_inv_loop (tokens : list TokenInfo) :
  text_inv tokens (fold_left (loop_body cpl lpp) tokens initial_state).
Proof.
  apply (fold_left_invariant_prefix (loop_body cpl lpp) text_inv
           text_inv_step tokens [] initial_state).
  reflexivity.
Qed.

Lemma build_pages_text (tokens : list TokenInfo) :
  concat (map li_text (all_lines (build_pages cpl lpp tokens)))
  = concat (map tok_text tokens).
Proof.
  rewrite all_lines_build_pages, map_app, concat_app, concat_closed_line.
  apply text_inv_loop.
Qed.

End LoopFacts.

(** C2: the texts of the emitted lines, in page and line order, make up
    the texts of the input tokens exactly, and so the line lengths add
    up to the token lengths. *)
Theorem pagination_preserves_characters :
  forall (chars_per_line lines_per_page : Z) (tokens : list TokenInfo)
         (ents : list EntityInfo),
    let pages := _generate_pages chars_per_line lines_per_page tokens ents in
    concat (map li_text (all_lines pages)) = concat (map tok_text tokens)
    /\ sum_Z (map (fun line => len (li_text line)) (all_lines pages))
       = sum_Z (map (fun token => len (tok_text token)) tokens).
Proof.
  intros cpl lpp tokens ents pages. subst pages. unfold _generate_pages.
  rewrite add_entities_all_lines.
  pose proof (build_pages_text cpl lpp tokens) as H.
  split; [exact H|].
  rewrite <- (map_map li_text len), <- (map_map tok_text len).
  now rewrite !sum_Z_len_concat, H.
Qed.

(** ** Consecutive lines *)

Lemma end_of_app (o : Z) (a b : list LineInfo) :
  end_of o (a ++ b) = end_of (end_of o a) b.
Proof. unfold end_of. apply fold_left_app. Qed.

Lemma chained_app (o : Z) (a b : list LineInfo) :
  chained o (a ++ b) <-> chained o a /\ chained (end_of o a) b.
Proof.
  revert o. induction a as [|l a IH]; intros o; simpl.
  - tauto.
  - rewrite IH. unfold end_of. simpl. tauto.
Qed.

Lemma end_of_text (o : Z) (ls : list LineInfo) :
  Forall line_wf ls ->
  end_of o ls = o + len (concat (map li_text ls)).
Proof.
  intros H. revert o. induction H as [|l ls Hl _ IH]; intros o.
  - unfold end_of, len. simpl. lia.
  - unfold end_of in *. simpl. rewrite IH, len_app.
    destruct Hl as (_ & -> & _). lia.
Qed.

Lemma chained_lookup (ls : list LineInfo) :
  forall (o : Z) (i : nat) (l : LineInfo),
    chained o ls -> ls !! i = Some l -> li_offset l = end_of o (take i ls).
Proof.
  induction ls as [|x ls IH]; intros o i l Hc Hi.
  - discriminate.
  - destruct Hc as [Hx Hc]. destruct i as [|i]; simpl in *.
    + injection Hi as ->. exact Hx.
    + rewrite (IH _ _ _ Hc Hi). reflexivity.
Qed.

Lemma end_of_take_S (ls : list LineInfo) :
  forall (o : Z) (i : nat) (l : LineInfo),
    ls !! i = Some l ->
    end_of o (take (S i) ls) = end_of o (take i ls) + li_length l.
Proof.
  induction ls as [|x ls IH]; intros o i l Hi.
  - discriminate.
  - destruct i as [|i]; simpl in *.
    + injection Hi as ->. reflexivity.
    + apply (IH (o + li_length x) i l Hi).
Qed.

Lemma end_of_ge (o : Z) (ls : list LineInfo) :
  Forall line_wf ls -> o <= end_of o ls.
Proof.
  intros H. rewrite (end_of_text _ _ H).
  pose proof (len_nonneg (concat (map li_text ls))). lia.
Qed.

Lemma end_of_take_mono (ls : list LineInfo) :
  Forall line_wf ls ->
  forall (o : Z) (i j : nat),
    (i <= j)%nat -> end_of o (take i ls) <= end_of o (take j ls).
Proof.
  induction 1 as [|x ls Hx Hls IH]; intros o i j Hij.
  - rewrite !take_nil. lia.
  - destruct i as [|i]; [|destruct j as [|j]; [lia|]].
    + apply (end_of_ge o (take j (x :: ls))).
      apply Forall_take. now constructor.
    + apply (IH (o + li_length x) i j). lia.
Qed.

(** ** Invariants of the loop *)

Section Invariants.

Variables cpl lpp : Z.

Lemma closed_line_wf (st : LoopState) :
  st_current_line st = concat (map tok_text (st_current_line_tokens st)) ->
  Forall line_wf (closed_line st).
Proof.
  intros H. unfold closed_line.
  destruct (truthy (st_current_line st)) eqn:E; constructor; [|constructor].
  apply truthy_true in E. now repeat split.
Qed.

Lemma wf_inv_step (st : LoopState) (t : TokenInfo) :
  wf_inv st -> wf_inv (loop_body cpl lpp st t).
Proof.
  intros [He Hc]. unfold wf_inv.
  rewrite emitted_loop_body, current_line_loop_body, current_tokens_loop_body.
  destruct (_should_break_line _ _ _ _); split.
  - apply Forall_app. split; [exact He | now apply closed_line_wf].
  - simpl. now rewrite app_nil_r.
  - now rewrite app_nil_r.
  - rewrite map_app, concat_app, Hc. simpl. now rewrite app_nil_r.
Qed.

Lemma wf_inv_loop (tokens : list TokenInfo) :
  wf_inv (fold_left (loop_body cpl lpp) tokens initial_state).
Proof.
  apply fold_left_invariant; [exact wf_inv_step|].
  split; [constructor | reflexivity].
Qed.

Lemma build_pages_wf (tokens : list TokenInfo) :
  Forall line_wf (all_lines (build_pages cpl lpp tokens)).
Proof.
  rewrite all_lines_build_pages. destruct (wf_inv_loop tokens) as [He Hc].
  apply Forall_app. split; [exact He | now apply closed_line_wf].
Qed.

Lemma chained_closed_line (st : LoopState) :
  chained (st_line_offset st) (closed_line st)
  /\ end_of (st_line_offset st) (closed_line st)
     = st_line_offset st + len (st_current_line st).
Proof.
  unfold closed_line, end_of.
  destruct (truthy (st_current_line st)) eqn:E; simpl; auto.
  apply truthy_false in E. rewrite E. unfold len. simpl. split; [exact I | lia].
Qed.

Lemma offset_inv_step (st : LoopState) (t : TokenInfo) :
  offset_inv st -> offset_inv (loop_body cpl lpp st t).
Proof.
  intros [Hc Ho]. unfold offset_inv.
  rewrite emitted_loop_body, line_offset_loop_body.
  destruct (chained_closed_line st) as [Hcl Hend].
  destruct (_should_break_line _ _ _ _).
  - rewrite chained_app, end_of_app, <- Ho. auto.
  - now rewrite app_nil_r.
Qed.

Lemma offset_inv_loop (tokens : list TokenInfo) :
  offset_inv (fold_left (loop_body cpl lpp) tokens initial_state).
Proof.
  apply fold_left_invariant; [exact offset_inv_step|].
  split; [exact I | reflexivity].
Qed.

Lemma build_pages_chained (tokens : list TokenInfo) :
  chained 0 (all_lines (build_pages cpl lpp tokens)).
Proof.
  rewrite all_lines_build_pages.
  destruct (offset_inv_loop tokens) as [Hc Ho].
  apply chained_app. split; [exact Hc|].
  rewrite <- Ho. apply chained_closed_line.
Qed.

End Invariants.

(** C10: in document order the emitted lines have contiguous running
    offsets: the first starts at 0, each next one starts where the one
    before ends, so a line's offset is the number of characters emitted
    before it, the ranges are disjoint and adjacent and end at the total
    number of characters; and that offset can differ from the [start] of
    the line's first token. *)
Theorem line_offsets_are_contiguous :
  (forall (chars_per_line lines_per_page : Z) (tokens : list TokenInfo)
          (ents : list EntityInfo),
     let ls :=
       all_lines (_generate_pages chars_per_line lines_per_page tokens ents) in
     (forall l : LineInfo, ls !! 0%nat = Some l -> li_offset l = 0)
     /\ (forall (i : nat) (a b : LineInfo),
           ls !! i = Some a -> ls !! S i = Some b ->
           li_offset b = li_offset a + li_length a)
     /\ (forall (i : nat) (l : LineInfo),
           ls !! i = Some l ->
           li_offset l = len (concat (map li_text (take i ls))))
     /\ (forall (i j : nat) (a b : LineInfo),
           (i < j)%nat -> ls !! i = Some a -> ls !! j = Some b ->
           li_offset a + li_length a <= li_offset b)
     /\ (forall l : LineInfo, In l ls -> 0 < li_length l)
     /\ (forall l : LineInfo,
           last ls = Some l ->
           li_offset l + li_length l = len (concat (map tok_text tokens))))
  /\ (exists (chars_per_line lines_per_page : Z) (tokens : list TokenInfo)
             (ents : list EntityInfo) (l : LineInfo) (t : TokenInfo),
        In l (all_lines
                (_generate_pages chars_per_line lines_per_page tokens ents))
        /\ head (li_tokens l) = Some t
        /\ li_offset l <> tok_start t).
Proof.
  split.
  - intros cpl lpp tokens ents ls. subst ls. unfold _generate_pages.
    rewrite add_entities_all_lines.
    set (ls := all_lines (build_pages cpl lpp tokens)).
    assert (Hc : chained 0 ls) by apply build_pages_chained.
    assert (Hwf : Forall line_wf ls) by apply build_pages_wf.
    assert (Hoff : forall (i : nat) (l : LineInfo),
               ls !! i = Some l -> li_offset l = end_of 0 (take i ls))
      by (intros i l; apply chained_lookup, Hc).
    assert (Hnext : forall (i : nat) (l : LineInfo),
               ls !! i = Some l ->
               li_offset l + li_length l = end_of 0 (take (S i) ls)).
    { intros i l Hi. rewrite (end_of_take_S _ _ _ _ Hi), (Hoff _ _ Hi).
      reflexivity. }
    repeat split.
    + intros l H0. apply (Hoff _ _ H0).
    + intros i a b Ha Hb. rewrite (Hoff _ _ Hb). symmetry. now apply Hnext.
    + intros i l Hi. rewrite (Hoff _ _ Hi), end_of_text.
      * lia.
      * now apply Forall_take.
    + intros i j a b Hij Ha Hb.
      rewrite (Hnext _ _ Ha), (Hoff _ _ Hb).
      apply end_of_take_mono; [exact Hwf | lia].
    + intros l Hl. rewrite Forall_forall in Hwf.
      destruct (Hwf l) as (Hne & Hlen & _).
      * now apply list_elem_of_In.
      * rewrite Hlen. pose proof (len_nonneg (li_text l)).
        assert (len (li_text l) <> 0) by (rewrite len_zero; exact Hne). lia.
    + intros l Hl. rewrite last_lookup in Hl.
      destruct ls as [|x ls'] eqn:E; [discriminate|].
      rewrite (Hnext _ _ Hl).
      replace (S (Init.Nat.pred (length (x :: ls')))) with (length (x :: ls'))
        by (simpl; lia).
      rewrite firstn_all, end_of_text by exact Hwf.
      rewrite <- E. unfold ls. rewrite build_pages_text. lia.
  - exists 2, 2, [tok "AB" 0 2; tok "CD" 5 7], [].
    exists (new_line_info (lit "CD") 2 [tok "CD" 5 7]), (tok "CD" 5 7).
    split; [|split].
    + vm_compute. right. left. reflexivity.
    + reflexivity.
    + vm_compute. discriminate.
Qed.

(** ** Page numbers *)

Lemma seq_from_1_snoc (n : nat) :
  map Z.of_nat (seq 1 (S n)) = map Z.of_nat (seq 1 n) ++ [Z.of_nat n + 1].
Proof.
  rewrite seq_S, map_app. simpl. do 2 f_equal. lia.
Qed.

Lemma lookup_map {A B} (f : A -> B) (l : list A) :
  forall (i : nat) (x : A), l !! i = Some x -> map f l !! i = Some (f x).
Proof.
  induction l as [|y l IH]; intros [|i] x H; try discriminate; simpl in *.
  - now injection H as ->.
  - now apply IH.
Qed.

Lemma lookup_seq_Z (n : nat) :
  forall (s i : nat) (z : Z),
    map Z.of_nat (seq s n) !! i = Some z -> z = Z.of_nat (s + i).
Proof.
  induction n as [|n IH]; intros s [|i] z H; try discriminate; simpl in *.
  - injection H as <-. f_equal. lia.
  - apply IH in H. rewrite H. f_equal. lia.
Qed.

Lemma ids_snoc (ps : list PageLayout) (p : PageLayout) :
  map page_id ps = map Z.of_nat (seq 1 (length ps)) ->
  page_id p = Z.of_nat (length ps) + 1 ->
  map page_id (ps ++ [p]) = map Z.of_nat (seq 1 (length (ps ++ [p]))).
Proof.
  intros Hps Hp. rewrite length_app, map_app. simpl.
  rewrite Nat.add_1_r, seq_from_1_snoc, Hps, Hp. reflexivity.
Qed.

Section PageNumbers.

Variables cpl lpp : Z.

Lemma ids_inv_close_line (st : LoopState) : ids_inv st -> ids_inv (close_line st).
Proof.
  unfold ids_inv, close_line. destruct (truthy (st_current_line st)); auto.
Qed.

Lemma ids_inv_close_page (st : LoopState) :
  ids_inv st -> ids_inv (close_page lpp st).
Proof.
  unfold ids_inv, close_page. intros [Hps Hp].
  destruct (_ >=? lpp); simpl; [|auto].
  split; [now apply ids_snoc | reflexivity].
Qed.

Lemma ids_inv_step (st : LoopState) (t : TokenInfo) :
  ids_inv st -> ids_inv (loop_body cpl lpp st t).
Proof.
  intros H. unfold loop_body.
  destruct (_should_break_line _ _ _ _); [|exact H].
  apply (ids_inv_close_page (close_line st)), ids_inv_close_line, H.
Qed.

Lemma build_pages_ids (tokens : list TokenInfo) :
  map page_id (build_pages cpl lpp tokens)
  = map Z.of_nat (seq 1 (length (build_pages cpl lpp tokens))).
Proof.
  unfold build_pages.
  set (st := fold_left (loop_body cpl lpp) tokens initial_state).
  assert (H : ids_inv st).
  { apply fold_left_invariant; [exact ids_inv_step|]. now split. }
  destruct H as [Hps Hp]. unfold last_page.
  destruct (lines (last_line st)) eqn:E; [exact Hps|].
  apply ids_snoc; [exact Hps|].
  unfold last_line. now destruct (truthy (st_current_line st)).
Qed.

End PageNumbers.

(** C7: the page numbers of the emitted pages are 1, 2, ..., total_pages
    in this order, total_pages being the number of pages that the layout
    document reports. *)
Theorem page_ids_are_one_to_total :
  forall (chars_per_line lines_per_page : Z) (tokens : list TokenInfo)
         (ents : list EntityInfo),
    let pages := _generate_pages chars_per_line lines_per_page tokens ents in
    let doc := create_layout_json chars_per_line lines_per_page tokens ents in
    md_total_pages doc = Z.of_nat (length pages)
    /\ map page_id (ld_pages doc)
       = map Z.of_nat (seq 1 (Z.to_nat (md_total_pages doc)))
    /\ (forall (i : nat) (p : PageLayout),
          pages !! i = Some p -> page_id p = Z.of_nat i + 1).
Proof.
  intros cpl lpp tokens ents pages doc.
  assert (H : map page_id pages = map Z.of_nat (seq 1 (length pages))).
  { subst pages. unfold _generate_pages.
    rewrite add_entities_page_id, add_entities_length.
    apply build_pages_ids. }
  split; [reflexivity|]. split.
  - subst doc. unfold create_layout_json. simpl.
    fold pages. now rewrite Nat2Z.id.
  - intros i p Hi.
    apply (lookup_map page_id) in Hi. rewrite H in Hi.
    apply lookup_seq_Z in Hi. lia.
Qed.

(** ** Page sizes *)

Lemma concat_nil_Forall {A} (ls : list (list A)) :
  concat ls = [] <-> Forall (fun l => l = []) ls.
Proof.
  induction ls as [|l ls IH]; simpl.
  - split; [constructor | reflexivity].
  - split.
    + intros H. apply app_eq_nil in H as [-> H]. constructor; [easy|].
      now apply IH.
    + intros H. inversion H as [|? ? -> H']; subst. now apply IH.
Qed.

Lemma wf_lines_no_text (ls : list LineInfo) :
  Forall line_wf ls -> concat (map li_text ls) = [] -> ls = [].
Proof.
  intros Hwf H. destruct ls as [|l ls]; [reflexivity|].
  inversion Hwf as [|? ? (Hne & _) _]; subst.
  simpl in H. apply app_eq_nil in H as [H _]. contradiction.
Qed.

Section PageSizes.

Variables cpl lpp : Z.
Hypothesis lpp_pos : 0 < lpp.

Lemma size_inv_step (st : LoopState) (t : TokenInfo) :
  size_inv lpp st -> size_inv lpp (loop_body cpl lpp st t).
Proof.
  intros [Hps Hp]. unfold loop_body.
  destruct (_should_break_line _ _ _ _); [|now split].
  unfold size_inv, add_token, reset_line, close_page, close_line. simpl.
  destruct (truthy (st_current_line st)); simpl.
  - rewrite length_app. simpl.
    destruct (_ >=? lpp) eqn:E; rewrite Z.geb_leb in E; simpl.
    + apply Z.leb_le in E. split; [|exact lpp_pos].
      apply Forall_app. split; [exact Hps|]. constructor; [|constructor].
      simpl. rewrite length_app. simpl. lia.
    + apply Z.leb_gt in E. split; [exact Hps|].
      rewrite length_app. simpl. lia.
  - destruct (_ >=? lpp) eqn:E; rewrite Z.geb_leb in E; simpl.
    + apply Z.leb_le in E. lia.
    + now split.
Qed.

Lemma size_inv_loop (tokens : list TokenInfo) :
  size_inv lpp (fold_left (loop_body cpl lpp) tokens initial_state).
Proof.
  apply fold_left_invariant; [exact size_inv_step|].
  split; [constructor | exact lpp_pos].
Qed.

(** The page list: full pages, then at most one page with between one
    and [lpp] lines. *)
Lemma build_pages_shape (tokens : list TokenInfo) :
  exists (full tail : list PageLayout),
    build_pages cpl lpp tokens = full ++ tail
    /\ Forall (fun p => Z.of_nat (length (lines p)) = lpp) full
    /\ (tail = []
        \/ exists p, tail = [p]
                     /\ 1 <= Z.of_nat (length (lines p)) <= lpp).
Proof.
  unfold build_pages.
  set (st := fold_left (loop_body cpl lpp) tokens initial_state).
  destruct (size_inv_loop tokens) as [Hps Hp]. fold st in Hps, Hp.
  exists (st_pages st). unfold last_page.
  destruct (lines (last_line st)) as [|l ls] eqn:E.
  - exists []. rewrite app_nil_r. auto.
  - exists [last_line st]. repeat split; auto.
    right. exists (last_line st). split; [reflexivity|].
    rewrite E. split; [simpl; lia|]. rewrite <- E, lines_last_line.
    rewrite length_app. unfold closed_line.
    destruct (truthy (st_current_line st)); simpl; lia.
Qed.

Lemma build_pages_sizes (tokens : list TokenInfo)
    (init : list PageLayout) (lastp : PageLayout) :
  build_pages cpl lpp tokens = init ++ [lastp] ->
  Forall (fun p => Z.of_nat (length (lines p)) = lpp) init
  /\ 1 <= Z.of_nat (length (lines lastp)) <= lpp.
Proof.
  intros H.
  destruct (build_pages_shape tokens)
    as (full & tail & Heq & Hfull & [-> | (p & -> & Hp)]).
  - rewrite app_nil_r in Heq. rewrite Heq in H. subst full.
    apply Forall_app in Hfull as [Hi Hl]. split; [exact Hi|].
    inversion Hl as [|? ? Hl' _]; subst. lia.
  - rewrite Heq in H. apply app_inj_tail in H as [-> ->]. auto.
Qed.

Lemma build_pages_no_empty_page (tokens : list TokenInfo) :
  Forall (fun p => lines p <> []) (build_pages cpl lpp tokens).
Proof.
  destruct (build_pages_shape tokens)
    as (full & tail & -> & Hfull & Htail).
  apply Forall_app. split.
  - eapply Forall_impl; [exact Hfull|].
    intros p Hp Hnil. simpl in Hp. rewrite Hnil in Hp. simpl in Hp. lia.
  - destruct Htail as [-> | (p & -> & Hp)]; constructor; [|constructor].
    intros Hnil. rewrite Hnil in Hp. simpl in Hp. lia.
Qed.

Lemma build_pages_nil_iff_no_lines (tokens : list TokenInfo) :
  build_pages cpl lpp tokens = []
  <-> all_lines (build_pages cpl lpp tokens) = [].
Proof.
  split; [intros ->; reflexivity|].
  pose proof (build_pages_no_empty_page tokens) as Hne.
  destruct (build_pages cpl lpp tokens) as [|p ps]; [reflexivity|].
  intros H. unfold all_lines in H. simpl in H.
  apply app_eq_nil in H as [H _].
  inversion Hne as [|? ? Hp _]; subst. contradiction.
Qed.

Lemma build_pages_nil_iff_no_text (tokens : list TokenInfo) :
  build_pages cpl lpp tokens = []
  <-> Forall (fun t => tok_text t = []) tokens.
Proof.
  rewrite build_pages_nil_iff_no_lines.
  pose proof (build_pages_text cpl lpp tokens) as Htext.
  pose proof (build_pages_wf cpl lpp tokens) as Hwf.
  split.
  - intros H. rewrite H in Htext. simpl in Htext.
    symmetry in Htext. apply concat_nil_Forall in Htext.
    now apply Forall_map in Htext.
  - intros H. apply (wf_lines_no_text _ Hwf). rewrite Htext.
    apply concat_nil_Forall. now apply Forall_map.
Qed.

End PageSizes.

Lemma add_entities_nil (pages : list PageLayout) (ents : list EntityInfo) :
  _add_entities_to_pages pages ents = [] <-> pages = [].
Proof.
  unfold _add_entities_to_pages. destruct pages; simpl; split; congruence.
Qed.

Lemma add_entities_snoc (pages init : list PageLayout) (lastp : PageLayout)
    (ents : list EntityInfo) :
  _add_entities_to_pages pages ents = init ++ [lastp] ->
  exists (init0 : list PageLayout) (last0 : PageLayout),
    pages = init0 ++ [last0]
    /\ map lines init0 = map lines init
    /\ lines last0 = lines lastp.
Proof.
  intros H.
  pose proof (add_entities_lines pages ents) as Hl. rewrite H in Hl.
  unfold _add_entities_to_pages in H.
  apply map_eq_app in H as (init0 & tl & -> & Hi & Ht).
  destruct tl as [|last0 [|? ?]]; try discriminate.
  exists init0, last0. split; [reflexivity|].
  rewrite !map_app in Hl. simpl in Hl.
  apply app_inj_tail in Hl as [Hl1 Hl2]. auto.
Qed.

Lemma Forall_lines_transfer (P : list LineInfo -> Prop)
    (ps qs : list PageLayout) :
  map lines ps = map lines qs ->
  Forall (fun p => P (lines p)) ps -> Forall (fun p => P (lines p)) qs.
Proof.
  intros Heq H.
  apply (Forall_map lines P) in H. rewrite Heq in H.
  now apply (Forall_map lines P).
Qed.

(** C4: with a positive [lines_per_page] every page but the last holds
    exactly [lines_per_page] lines and the last one between 1 and
    [lines_per_page]; no page is empty; there is no page exactly when
    the token stream yields no line, that is when no token carries text,
    and in particular when there is no token. *)
Theorem page_sizes_are_bounded :
  forall (chars_per_line lines_per_page : Z) (tokens : list TokenInfo)
         (ents : list EntityInfo),
    0 < lines_per_page ->
    let pages := _generate_pages chars_per_line lines_per_page tokens ents in
    (forall (init : list PageLayout) (lastp : PageLayout),
        pages = init ++ [lastp] ->
        Forall (fun p => Z.of_nat (length (lines p)) = lines_per_page) init
        /\ 1 <= Z.of_nat (length (lines lastp)) <= lines_per_page)
    /\ Forall (fun p => lines p <> []) pages
    /\ (pages = [] <-> all_lines pages = [])
    /\ (pages = [] <-> Forall (fun t => tok_text t = []) tokens)
    /\ _generate_pages chars_per_line lines_per_page [] ents = [].
Proof.
  intros cpl lpp tokens ents Hpos pages. subst pages. unfold _generate_pages.
  split; [|split; [|split; [|split]]].
  - intros init lastp Hsnoc.
    apply add_entities_snoc in Hsnoc as (init0 & last0 & H0 & Hi & Hl).
    apply (build_pages_sizes cpl lpp Hpos) in H0 as [Hfull Hlast].
    split.
    + exact (Forall_lines_transfer
               (fun ls => Z.of_nat (length ls) = lpp) _ _ Hi Hfull).
    + now rewrite <- Hl.
  - apply (Forall_lines_transfer (fun ls => ls <> [])
             (build_pages cpl lpp tokens)).
    + symmetry. apply add_entities_lines.
    + now apply build_pages_no_empty_page.
  - rewrite add_entities_all_lines, add_entities_nil.
    now apply build_pages_nil_iff_no_lines.
  - rewrite add_entities_nil. now apply build_pages_nil_iff_no_text.
  - reflexivity.
Qed.

Lemma page_sizes_are_bounded_witness :
  0 < 2
  /\ Forall (fun p => lines p <> [])
       (_generate_pages 3 2 [tok "AB" 0 2; tok "CD" 2 4; tok "E" 4 5] []).
Proof.
  split; [lia|].
  apply (page_sizes_are_bounded 3 2 [tok "AB" 0 2; tok "CD" 2 4; tok "E" 4 5] []).
  lia.
Defined.

(** ** Line capacity *)

Section Capacity.

Variables cpl lpp : Z.

Lemma closed_line_fits (st : LoopState) :
  cap_inv cpl st -> Forall (line_fits cpl) (closed_line st).
Proof.
  intros [_ Hc]. unfold closed_line.
  destruct (truthy (st_current_line st)) eqn:E; constructor; [|constructor].
  apply truthy_true in E. unfold line_fits. simpl.
  destruct Hc as [Hc | [Hc | Hc]]; [contradiction | now left | now right].
Qed.

Lemma cap_inv_step (st : LoopState) (t : TokenInfo) :
  cap_inv cpl st -> cap_inv cpl (loop_body cpl lpp st t).
Proof.
  intros H. pose proof (closed_line_fits st H) as Hcl.
  destruct H as [He Hc]. unfold cap_inv.
  rewrite emitted_loop_body, current_line_loop_body, current_tokens_loop_body.
  rewrite should_break_line_capacity.
  destruct (capacity_exceeded cpl (st_current_line st) t) eqn:E; split.
  - apply Forall_app. now split.
  - right. right. now exists t.
  - now rewrite app_nil_r.
  - right. left. apply capacity_exceeded_false in E. now rewrite len_app.
Qed.

Lemma cap_inv_loop (tokens : list TokenInfo) :
  cap_inv cpl (fold_left (loop_body cpl lpp) tokens initial_state).
Proof.
  apply fold_left_invariant; [exact cap_inv_step|].
  split; [constructor | now left].
Qed.

Lemma build_pages_fits (tokens : list TokenInfo) :
  Forall (line_fits cpl) (all_lines (build_pages cpl lpp tokens)).
Proof.
  rewrite all_lines_build_pages.
  pose proof (cap_inv_loop tokens) as H.
  apply Forall_app. split; [apply H | now apply closed_line_fits].
Qed.

Hypothesis cpl_nonneg : 0 <= cpl.

Lemma long_buffer_closes (st : LoopState) (t : TokenInfo) :
  len (tok_text t) > cpl ->
  st_current_line_tokens st = [t] ->
  st_current_line st = tok_text t ->
  exists l, closed_line st = [l] /\ alone_on t l.
Proof.
  intros Hlong Ht Hc. unfold closed_line.
  destruct (truthy (st_current_line st)) eqn:E.
  - eexists. split; [reflexivity|]. now split.
  - apply truthy_false in E. rewrite Hc in E. rewrite E in Hlong.
    unfold len in Hlong. simpl in Hlong. lia.
Qed.

Lemma big_inv_step (seen : list TokenInfo) (st : LoopState) (t : TokenInfo) :
  big_inv cpl seen st -> big_inv cpl (seen ++ [t]) (loop_body cpl lpp st t).
Proof.
  intros H u Hu Hlong.
  rewrite emitted_loop_body, current_line_loop_body, current_tokens_loop_body.
  rewrite should_break_line_capacity.
  apply in_app_or in Hu as [Hu | [<- | []]].
  - destruct (H u Hu Hlong) as [(l & Hl & Hal) | [Ht Hc]].
    + left. exists l. split; [|exact Hal]. apply in_or_app. now left.
    + assert (E : capacity_exceeded cpl (st_current_line st) t = true).
      { apply capacity_exceeded_true. rewrite Hc.
        pose proof (len_nonneg (tok_text t)). lia. }
      rewrite E.
      destruct (long_buffer_closes st u Hlong Ht Hc) as (l & -> & Hal).
      left. exists l. split; [|exact Hal].
      apply in_or_app. right. now left.
  - assert (E : capacity_exceeded cpl (st_current_line st) t = true).
    { apply capacity_exceeded_true.
      pose proof (len_nonneg (st_current_line st)). lia. }
    rewrite E. now right.
Qed.

Lemma build_pages_long_tokens (tokens : list TokenInfo) (t : TokenInfo) :
  In t tokens -> len (tok_text t) > cpl ->
  exists l, In l (all_lines (build_pages cpl lpp tokens)) /\ alone_on t l.
Proof.
  intros Ht Hlong. rewrite all_lines_build_pages.
  set (st := fold_left (loop_body cpl lpp) tokens initial_state).
  assert (H : big_inv cpl tokens st).
  { apply (fold_left_invariant_prefix (loop_body cpl lpp) (big_inv cpl)
             big_inv_step tokens [] initial_state).
    intros u []. }
  destruct (H t Ht Hlong) as [(l & Hl & Hal) | [Htoks Hc]].
  - exists l. split; [|exact Hal]. apply in_or_app. now left.
  - destruct (long_buffer_closes st t Hlong Htoks Hc) as (l & Hcl & Hal).
    exists l. split; [|exact Hal]. apply in_or_app. right.
    rewrite Hcl. now left.
Qed.

End Capacity.

(** C3: with a positive [chars_per_line], a line of two or more tokens,
    or of one token that fits, is no longer than [chars_per_line]; and a
    token longer than [chars_per_line] stands whole on a line that holds
    nothing else. *)
Theorem line_capacity_is_respected :
  forall (chars_per_line lines_per_page : Z) (tokens : list TokenInfo)
         (ents : list EntityInfo),
    0 < chars_per_line ->
    let ls :=
      all_lines (_generate_pages chars_per_line lines_per_page tokens ents) in
    (forall l : LineInfo,
        In l ls ->
        (2 <= length (li_tokens l))%nat
        \/ (exists t, li_tokens l = [t] /\ len (tok_text t) <= chars_per_line) ->
        len (li_text l) <= chars_per_line)
    /\ (forall t : TokenInfo,
          In t tokens -> len (tok_text t) > chars_per_line ->
          exists l, In l ls /\ li_tokens l = [t] /\ li_text l = tok_text t).
Proof.
  intros cpl lpp tokens ents Hpos ls. subst ls. unfold _generate_pages.
  rewrite add_entities_all_lines. split.
  - intros l Hl Hcase.
    pose proof (build_pages_fits cpl lpp tokens) as Hfits.
    pose proof (build_pages_wf cpl lpp tokens) as Hwf.
    rewrite Forall_forall in Hfits, Hwf.
    apply list_elem_of_In in Hl.
    destruct (Hwf l Hl) as (_ & _ & Htext).
    destruct (Hfits l Hl) as [Hfit | [u Hu]]; [exact Hfit|].
    destruct Hcase as [Htwo | (t & Ht & Hlen)].
    + rewrite Hu in Htwo. simpl in Htwo. lia.
    + rewrite Htext, Ht. simpl. now rewrite app_nil_r.
  - intros t Ht Hlong.
    apply (build_pages_long_tokens cpl lpp); [lia | exact Ht | exact Hlong].
Qed.

Lemma line_capacity_is_respected_witness :
  0 < 3
  /\ exists l,
       In l (all_lines (_generate_pages 3 2 [tok "ABCDEFGH" 0 8] []))
       /\ li_tokens l = [tok "ABCDEFGH" 0 8]
       /\ li_text l = tok_text (tok "ABCDEFGH" 0 8).
Proof.
  split; [lia|].
  apply (line_capacity_is_respected 3 2 [tok "ABCDEFGH" 0 8] []).
  - lia.
  - now left.
  - vm_compute. reflexivity.
Defined.

(** ** Entity projection *)

Lemma scan_lines_find (page_lines : list LineInfo) (entity : EntityInfo)
    (rest : list LineInfo) :
  scan_lines page_lines entity rest
  = option_map
      (fun line =>
         {| pe_text := ent_text entity;
            pe_type := ent_type entity;
            pe_start := ent_start entity - li_offset line;
            pe_end := ent_end entity - li_offset line;
            pe_line_idx := Z.of_nat (index line page_lines) |})
      (List.find (overlaps entity) rest).
Proof.
  induction rest as [|line rest IH]; simpl; [reflexivity|].
  now destruct (overlaps entity line).
Qed.

Lemma scan_lines_page (page : PageLayout) (entity : EntityInfo) :
  scan_lines (lines page) entity (lines page) = entity_on_page page entity.
Proof. apply scan_lines_find. Qed.

Lemma page_entities_of_omap (page : PageLayout) (ents : list EntityInfo) :
  page_entities_of page ents = omap (entity_on_page page) ents.
Proof.
  unfold page_entities_of.
  enough (H : forall acc,
             fold_left
               (fun page_entities entity =>
                  match scan_lines (lines page) entity (lines page) with
                  | Some entity_info => page_entities ++ [entity_info]
                  | None => page_entities
                  end) ents acc
             = acc ++ omap (entity_on_page page) ents) by apply (H []).
  induction ents as [|e ents IH]; intros acc; simpl.
  - now rewrite app_nil_r.
  - rewrite IH, scan_lines_page.
    destruct (entity_on_page page e); simpl; [|reflexivity].
    now rewrite <- app_assoc.
Qed.

Lemma entity_on_page_overlaps (page : PageLayout) (entity : EntityInfo) :
  page_overlaps entity page = true <-> is_Some (entity_on_page page entity).
Proof.
  unfold page_overlaps, entity_on_page.
  induction (lines page) as [|line ls IH]; simpl.
  - split; [discriminate | intros [? ?]; discriminate].
  - destruct (overlaps entity line); simpl; [|exact IH].
    split; [eauto | reflexivity].
Qed.

Lemma length_omap_count (page : PageLayout) (ents : list EntityInfo) :
  length (omap (entity_on_page page) ents)
  = count_if (fun e => page_overlaps e page) ents.
Proof.
  unfold count_if. induction ents as [|e ents IH]; simpl; [reflexivity|].
  pose proof (entity_on_page_overlaps page e) as [H1 H2].
  destruct (entity_on_page page e) eqn:E.
  - rewrite H2 by eauto. simpl. f_equal. exact IH.
  - destruct (page_overlaps e page); [|exact IH].
    destruct (H1 eq_refl) as [? ?]. discriminate.
Qed.

Lemma count_if_cons {A} (f : A -> bool) (x : A) (l : list A) :
  count_if f (x :: l) = ((if f x then 1 else 0) + count_if f l)%nat.
Proof. unfold count_if. simpl. now destruct (f x). Qed.

(** Counting pairs by rows or by columns. *)
Lemma count_if_swap {A B} (r : A -> B -> bool) (xs : list A) (ys : list B) :
  list_sum (map (fun y => count_if (fun x => r x y) xs) ys)
  = list_sum (map (fun x => count_if (r x) ys) xs).
Proof.
  induction xs as [|x xs IH]; simpl.
  - induction ys as [|y ys IHy]; simpl; [reflexivity | exact IHy].
  - rewrite <- IH. clear IH.
    induction ys as [|y ys IHy]; simpl; [reflexivity|].
    rewrite !count_if_cons, IHy. lia.
Qed.

Lemma all_entities_projected (pages : list PageLayout) (ents : list EntityInfo) :
  length (all_entities (_add_entities_to_pages pages ents))
  = list_sum (map (fun p => count_if (fun e => page_overlaps e p) ents) pages).
Proof.
  unfold all_entities, _add_entities_to_pages.
  induction pages as [|p pages IH]; simpl; [reflexivity|].
  now rewrite length_app, IH, page_entities_of_omap, length_omap_count.
Qed.

(** C1, as the code has it: projection goes page by page.  On each page
    an entity gets one record if some line of that page overlaps it,
    built from the first such line, and none otherwise; the lines and
    page numbers stay as they were.  Across the document an entity thus
    has as many records as there are pages with a line overlapping it:
    none when no line overlaps it. *)
Theorem entity_projection_by_page :
  forall (pages : list PageLayout) (ents : list EntityInfo),
    let pages' := _add_entities_to_pages pages ents in
    length pages' = length pages
    /\ (forall (i : nat) (p p' : PageLayout),
          pages !! i = Some p -> pages' !! i = Some p' ->
          page_id p' = page_id p
          /\ lines p' = lines p
          /\ entities p' = omap (entity_on_page p) ents
          /\ length (entities p')
             = count_if (fun e => page_overlaps e p) ents)
    /\ length (all_entities pages')
       = list_sum (map (fun e => count_if (page_overlaps e) pages) ents)
    /\ (forall e : EntityInfo,
          length (all_entities (_add_entities_to_pages pages [e]))
          = count_if (page_overlaps e) pages)
    /\ (forall e : EntityInfo,
          (forall p l, In p pages -> In l (lines p) -> overlaps e l = false) ->
          all_entities (_add_entities_to_pages pages [e]) = []).
Proof.
  intros pages ents pages'. subst pages'.
  split; [apply add_entities_length|]. split; [|split; [|split]].
  - intros i p p' Hp Hp'.
    unfold _add_entities_to_pages in Hp'.
    apply (lookup_map (fun page =>
             set_entities page (page_entities_of page ents))) in Hp.
    rewrite Hp in Hp'. injection Hp' as <-. simpl.
    rewrite page_entities_of_omap. repeat split. apply length_omap_count.
  - rewrite all_entities_projected. apply count_if_swap.
  - intros e. rewrite all_entities_projected.
    rewrite (count_if_swap (fun e p => page_overlaps e p) [e] pages).
    simpl. apply Nat.add_0_r.
  - intros e Hno. apply length_zero_iff_nil.
    rewrite all_entities_projected.
    rewrite (count_if_swap (fun e p => page_overlaps e p) [e] pages).
    simpl. rewrite Nat.add_0_r. unfold count_if.
    apply length_zero_iff_nil.
    induction pages as [|p pages IH]; simpl; [reflexivity|].
    assert (Hp : page_overlaps e p = false).
    { unfold page_overlaps. apply not_true_is_false. intros Hex.
      apply existsb_exists in Hex as (l & Hl & Hov).
      rewrite (Hno p l) in Hov; [discriminate | now left | exact Hl]. }
    rewrite Hp. apply IH. intros q l Hq. apply Hno. now right.
Qed.

(** The statement of C1 fails on a document the layout pass produces: an
    entity that overlaps the last line of one page and the first line of
    the next is recorded on both pages. *)
Lemma crossing_entity_projected_twice :
  two_pages
  = [ {| page_id := 1;
         lines := [new_line_info (lit "ABC") 0 [tok "ABC" 0 3]];
         entities := [ {| pe_text := lit "CDEF"; pe_type := lit "PERSON";
                          pe_start := 2; pe_end := 6; pe_line_idx := 0 |} ];
         total_chars := 3 |};
      {| page_id := 2;
         lines := [new_line_info (lit "DEFG") 3 [tok "DEFG" 3 7]];
         entities := [ {| pe_text := lit "CDEF"; pe_type := lit "PERSON";
                          pe_start := -1; pe_end := 3; pe_line_idx := 0 |} ];
         total_chars := 4 |} ]
  /\ (exists p l, In p two_pages /\ In l (lines p)
                  /\ overlaps crossing_entity l = true)
  /\ length (all_entities two_pages) = 2%nat
  /\ length (all_entities two_pages) <> 1%nat.
Proof.
  assert (E : two_pages
    = [ {| page_id := 1;
           lines := [new_line_info (lit "ABC") 0 [tok "ABC" 0 3]];
           entities := [ {| pe_text := lit "CDEF"; pe_type := lit "PERSON";
                            pe_start := 2; pe_end := 6; pe_line_idx := 0 |} ];
           total_chars := 3 |};
        {| page_id := 2;
           lines := [new_line_info (lit "DEFG") 3 [tok "DEFG" 3 7]];
           entities := [ {| pe_text := lit "CDEF"; pe_type := lit "PERSON";
                            pe_start := -1; pe_end := 3; pe_line_idx := 0 |} ];
           total_chars := 4 |} ]) by (vm_compute; reflexivity).
  split; [exact E|]. rewrite E. split; [|split].
  - eexists. eexists. split; [left; reflexivity|].
    split; [left; reflexivity|]. vm_compute. reflexivity.
  - reflexivity.
  - vm_compute. discriminate.
Qed.

(** ** Capacities that are not positive *)

Section NoValidation.

Variables cpl lpp : Z.

Lemma li_tokens_closed_line (st : LoopState) :
  map li_tokens (closed_line st)
  = if truthy (st_current_line st) then [st_current_line_tokens st] else [].
Proof. unfold closed_line. now destruct (truthy (st_current_line st)). Qed.

Lemma single_inv_step (seen : list TokenInfo) (st : LoopState) (t : TokenInfo) :
  cpl <= 0 ->
  single_inv seen st -> single_inv (seen ++ [t]) (loop_body cpl lpp st t).
Proof.
  unfold single_inv. intros Hcpl H.
  rewrite map_app, li_tokens_closed_line in H.
  rewrite map_app, li_tokens_closed_line, emitted_loop_body.
  rewrite current_line_loop_body, current_tokens_loop_body.
  rewrite should_break_line_capacity, List.filter_app, !map_app.
  cbn [List.filter].
  destruct (capacity_exceeded cpl (st_current_line st) t) eqn:E.
  - rewrite li_tokens_closed_line, <- H. cbn [app].
    now destruct (truthy (tok_text t)).
  - apply capacity_exceeded_false in E.
    pose proof (len_nonneg (st_current_line st)) as Hc.
    pose proof (len_nonneg (tok_text t)) as Ht.
    assert (Hcur : st_current_line st = []) by (apply len_zero; lia).
    assert (Htxt : tok_text t = []) by (apply len_zero; lia).
    rewrite Hcur in *. rewrite Htxt. cbn [app truthy map] in *.
    now rewrite !app_nil_r in *.
Qed.

Lemma build_pages_single_tokens (tokens : list TokenInfo) :
  cpl <= 0 ->
  map li_tokens (all_lines (build_pages cpl lpp tokens))
  = map (fun t => [t]) (List.filter has_text tokens).
Proof.
  intros Hcpl. rewrite all_lines_build_pages.
  apply (fold_left_invariant_prefix (loop_body cpl lpp) single_inv
           (fun seen a b => single_inv_step seen a b Hcpl)
           tokens [] initial_state).
  reflexivity.
Qed.

Hypothesis lpp_nonpos : lpp <= 0.

Lemma short_inv_step (st : LoopState) (t : TokenInfo) :
  short_inv st -> short_inv (loop_body cpl lpp st t).
Proof.
  intros [Hps Hp]. unfold loop_body.
  destruct (_should_break_line _ _ _ _); [|now split].
  unfold short_inv, add_token, reset_line, close_page. simpl.
  assert (E : (Z.of_nat (length (lines (st_current_page (close_line st))))
               >=? lpp) = true).
  { rewrite Z.geb_leb. apply Z.leb_le. lia. }
  rewrite E. simpl. split; [|reflexivity].
  apply Forall_app. split; [|constructor; [|constructor]].
  - unfold close_line. now destruct (truthy (st_current_line st)).
  - unfold close_line. destruct (truthy (st_current_line st)); simpl;
      rewrite Hp; simpl; lia.
Qed.

Lemma build_pages_short (tokens : list TokenInfo) :
  Forall (fun p => (length (lines p) <= 1)%nat) (build_pages cpl lpp tokens).
Proof.
  unfold build_pages.
  set (st := fold_left (loop_body cpl lpp) tokens initial_state).
  assert (H : short_inv st).
  { apply fold_left_invariant; [exact short_inv_step|].
    split; [constructor | reflexivity]. }
  destruct H as [Hps Hp]. unfold last_page.
  destruct (lines (last_line st)) eqn:E; [exact Hps|].
  apply Forall_app. split; [exact Hps|]. constructor; [|constructor].
  rewrite lines_last_line, Hp. unfold closed_line.
  destruct (truthy (st_current_line st)); simpl; lia.
Qed.

End NoValidation.

(** The statement of C5 fails: with both capacities set to 0 the layout
    pass runs as usual and returns pages, the first of them empty. *)
Lemma zero_capacities_are_laid_out :
  _generate_pages 0 0 [tok "AB" 0 2] []
  = [ new_page 1;
      {| page_id := 2;
         lines := [new_line_info (lit "AB") 0 [tok "AB" 0 2]];
         entities := [];
         total_chars := 2 |} ]
  /\ _generate_pages 0 0 [tok "AB" 0 2] [] <> []
  /\ md_total_pages (create_layout_json 0 0 [tok "AB" 0 2] []) = 2.
Proof.
  split; [vm_compute; reflexivity|].
  split; [vm_compute; discriminate | vm_compute; reflexivity].
Qed.

(** C5, as the code has it: [chars_per_line] and [lines_per_page] are
    not checked.  With a value that is not positive the layout pass still
    returns the whole text; if [chars_per_line] is not positive the lines
    are the tokens that carry text, each on a line of its own and in
    their order, whatever tokens without text stand among them; and if
    [lines_per_page] is not positive no page holds more than one line. *)
Theorem nonpositive_capacities_are_not_rejected :
  forall (chars_per_line lines_per_page : Z) (tokens : list TokenInfo)
         (ents : list EntityInfo),
    chars_per_line <= 0 \/ lines_per_page <= 0 ->
    let pages := _generate_pages chars_per_line lines_per_page tokens ents in
    ld_pages (create_layout_json chars_per_line lines_per_page tokens ents)
    = pages
    /\ concat (map li_text (all_lines pages)) = concat (map tok_text tokens)
    /\ (chars_per_line <= 0 ->
        map li_tokens (all_lines pages)
        = map (fun t => [t]) (List.filter has_text tokens))
    /\ (lines_per_page <= 0 ->
        Forall (fun p => (length (lines p) <= 1)%nat) pages).
Proof.
  intros cpl lpp tokens ents _ pages. subst pages. unfold _generate_pages.
  split; [reflexivity|].
  rewrite add_entities_all_lines. split; [apply build_pages_text|]. split.
  - apply build_pages_single_tokens.
  - intros Hlpp.
    apply (Forall_lines_transfer (fun ls => (length ls <= 1)%nat)
             (build_pages cpl lpp tokens)).
    + symmetry. apply add_entities_lines.
    + now apply build_pages_short.
Qed.

Lemma nonpositive_capacities_are_not_rejected_witness :
  (0 <= 0 \/ 0 <= 0)
  /\ map li_tokens
       (all_lines (_generate_pages 0 0
                     [tok "" 0 0; tok "AB" 0 2; tok "" 2 2; tok "C" 2 3] []))
     = [ [tok "AB" 0 2]; [tok "C" 2 3] ].
Proof.
  split; [left; lia|].
  destruct (nonpositive_capacities_are_not_rejected 0 0
              [tok "" 0 0; tok "AB" 0 2; tok "" 2 2; tok "C" 2 3] [])
    as (_ & _ & H & _); [left; lia|].
  apply H. lia.
Defined.

(** ** Offset tracker *)

Lemma find_from_ge (sub : pystr) (s : pystr) :
  forall base : Z,
    find_from sub s base = -1 \/ base <= find_from sub s base.
Proof.
  induction s as [|c s IH]; intros base; simpl.
  - destruct (starts_with sub []); [right; lia | now left].
  - destruct (starts_with sub (c :: s)); [right; lia|].
    destruct (IH (base + 1)) as [H | H]; [now left | right; lia].
Qed.

Lemma find_ge (s sub : pystr) (start : Z) :
  0 <= start -> find s sub start = -1 \/ start <= find s sub start.
Proof.
  intros H. unfold find.
  destruct (start <? 0) eqn:E; [apply Z.ltb_lt in E; lia|].
  destruct (start >? len s); [now left | apply find_from_ge].
Qed.

Lemma located_ge (text : pystr) (o : Z) (t : TokenInfo) :
  0 <= o -> located text o t -> o <= tok_start t /\ tok_start t <= tok_end t.
Proof.
  intros Ho [Hs He]. pose proof (len_nonneg (tok_text t)).
  split; [|lia]. rewrite Hs.
  destruct (find text (tok_text t) o =? -1) eqn:E; [lia|].
  apply Z.eqb_neq in E. destruct (find_ge text (tok_text t) o Ho); lia.
Qed.

Lemma tracked_app (text : pystr) (a b : list TokenInfo) :
  forall o : Z,
    tracked text o (a ++ b)
    <-> tracked text o a /\ tracked text (last_end o a) b.
Proof.
  induction a as [|t a IH]; intros o; simpl.
  - unfold last_end. simpl. tauto.
  - rewrite IH. unfold last_end. simpl. tauto.
Qed.

Lemma last_end_app (o : Z) (a b : list TokenInfo) :
  last_end o (a ++ b) = last_end (last_end o a) b.
Proof. unfold last_end. apply fold_left_app. Qed.

Lemma tracked_nonneg (text : pystr) (toks : list TokenInfo) :
  forall o : Z, 0 <= o -> tracked text o toks -> o <= last_end o toks.
Proof.
  induction toks as [|t toks IH]; intros o Ho H.
  - unfold last_end. simpl. lia.
  - destruct H as [Hl Ht]. destruct (located_ge _ _ _ Ho Hl).
    change (last_end o (t :: toks)) with (last_end (tok_end t) toks).
    assert (o <= tok_end t) by lia.
    assert (Hend : 0 <= tok_end t) by lia.
    specialize (IH (tok_end t) Hend Ht). lia.
Qed.

Lemma tracked_lookup (text : pystr) (toks : list TokenInfo) :
  forall (o : Z) (i : nat) (t : TokenInfo),
    tracked text o toks -> toks !! i = Some t ->
    located text (last_end o (take i toks)) t.
Proof.
  induction toks as [|x toks IH]; intros o i t H Hi; [discriminate|].
  destruct H as [Hx H]. destruct i as [|i]; simpl in *.
  - now injection Hi as <-.
  - apply (IH _ _ _ H Hi).
Qed.

Lemma last_end_take_S (toks : list TokenInfo) :
  forall (o : Z) (i : nat) (t : TokenInfo),
    toks !! i = Some t -> last_end o (take (S i) toks) = tok_end t.
Proof.
  induction toks as [|x toks IH]; intros o i t Hi; [discriminate|].
  destruct i as [|i]; simpl in *.
  - now injection Hi as <-.
  - apply (IH (tok_end x) i t Hi).
Qed.

Section Tracker.

Variable text : pystr.
Variable entity_map : gmap (Z * Z) pystr.

Lemma track_inv_step (seen : list (pystr * pystr))
    (st : list TokenInfo * Z) (wp : pystr * pystr) :
  track_inv text seen st ->
  track_inv text (seen ++ [wp]) (build_token_step text entity_map st wp).
Proof.
  destruct st as [toks cur], wp as [word pos_tag].
  unfold track_inv. simpl. intros (Ht & Hc & Hm).
  rewrite tracked_app, last_end_app, !map_app, Hm, <- Hc. simpl.
  repeat split; auto.
Qed.

Lemma track_inv_loop (wps : list (pystr * pystr)) :
  track_inv text wps
    (fold_left (build_token_step text entity_map) wps ([], 0)).
Proof.
  apply (fold_left_invariant_prefix (build_token_step text entity_map)
           (track_inv text) track_inv_step wps [] ([], 0)).
  now repeat split.
Qed.

End Tracker.

(** C8: the tracker makes one token per word and tag pair and never
    fails.  Each token ends at its start plus the length of its text;
    its start is where [find] locates the text from the end of the
    previous token on (from 0 for the first token), or that very end
    when [find] reports -1; so each start is at least the previous
    end. *)
Theorem build_tokens_offsets_monotone :
  forall (text : pystr) (ws pos : list pystr) (ner : list NerToken),
    let toks := _build_tokens text ws pos ner in
    map tok_text toks = map fst (combine ws pos)
    /\ length toks = Nat.min (length ws) (length pos)
    /\ (forall t : TokenInfo,
          In t toks -> tok_end t = tok_start t + len (tok_text t))
    /\ (forall t : TokenInfo,
          toks !! 0%nat = Some t ->
          0 <= tok_start t
          /\ (find text (tok_text t) 0 = -1 -> tok_start t = 0))
    /\ (forall (i : nat) (a b : TokenInfo),
          toks !! i = Some a -> toks !! S i = Some b ->
          tok_end a <= tok_start b
          /\ (find text (tok_text b) (tok_end a) = -1 ->
              tok_start b = tok_end a)
          /\ (find text (tok_text b) (tok_end a) <> -1 ->
              tok_start b = find text (tok_text b) (tok_end a))).
Proof.
  intros text ws pos ner toks. subst toks. unfold _build_tokens.
  destruct (track_inv_loop text (entity_map_of ner) (combine ws pos))
    as (Ht & _ & Hm).
  set (toks := fst (fold_left (build_token_step text (entity_map_of ner))
                              (combine ws pos) ([], 0))) in *.
  assert (Hloc : forall (i : nat) (t : TokenInfo),
             toks !! i = Some t ->
             located text (last_end 0 (take i toks)) t
             /\ 0 <= last_end 0 (take i toks)).
  { intros i t Hi. split; [now apply tracked_lookup|].
    apply (tracked_nonneg text); [lia|].
    rewrite <- (take_drop i toks) in Ht.
    now apply (tracked_app text (take i toks) (drop i toks) 0) in Ht. }
  split; [exact Hm|]. split; [|split; [|split]].
  - rewrite <- (length_map tok_text), Hm, length_map. apply length_combine.
  - intros t Hin. apply list_elem_of_In, list_elem_of_lookup in Hin.
    destruct Hin as [i Hi]. now destruct (Hloc i t Hi) as [[_ He] _].
  - intros t H0. destruct (Hloc _ _ H0) as [Hl _]. simpl in Hl. split.
    + now apply (located_ge text 0 t).
    + intros Hf. destruct Hl as [Hs _]. now rewrite Hf in Hs.
  - intros i a b Ha Hb. destruct (Hloc _ _ Hb) as [Hl Ho].
    rewrite (last_end_take_S _ _ _ _ Ha) in Hl, Ho.
    split; [|split].
    + now apply (located_ge text (tok_end a) b).
    + intros Hf. destruct Hl as [Hs _]. now rewrite Hf in Hs.
    + intros Hf. destruct Hl as [Hs _].
      apply Z.eqb_neq in Hf. now rewrite Hf in Hs.
Qed.

(** ** Plain-text rendering *)

Lemma tagged_lines_loop_map (pid : Z) (rest : list LineInfo) :
  forall (i : Z) (acc : list pystr),
    tagged_lines_loop pid i rest acc
    = acc ++ map (fun il => line_tag pid (fst il) ++ lit " "
                            ++ li_text (snd il))
                 (enumerate_from i rest).
Proof.
  induction rest as [|l rest IH]; intros i acc; simpl.
  - now rewrite app_nil_r.
  - rewrite IH, <- app_assoc. reflexivity.
Qed.

Lemma tagged_page_step_app (acc : list pystr) (page : PageLayout) :
  tagged_page_step acc page = acc ++ tagged_page page.
Proof.
  unfold tagged_page_step, tagged_page.
  rewrite tagged_lines_loop_map.
  destruct (page_id page >? 1); simpl; now rewrite <- !app_assoc.
Qed.

(** The serializer of the test renders the pages one after the other,
    each as [tagged_page] gives it, and joins the items with newlines. *)
Lemma generate_txt_content_by_page (pages : list PageLayout) :
  generate_txt_content pages = join newline (concat (map tagged_page pages)).
Proof.
  unfold generate_txt_content. f_equal.
  enough (H : forall acc,
             fold_left tagged_page_step pages acc
             = acc ++ concat (map tagged_page pages)) by apply (H []).
  induction pages as [|p pages IH]; intros acc; simpl.
  - now rewrite app_nil_r.
  - now rewrite IH, tagged_page_step_app, <- app_assoc.
Qed.

Lemma txt_content_lines_by_page (cpl : Z) (pages : list PageLayout) :
  _generate_txt_content_lines cpl pages
  = concat (map (txt_page_lines cpl) pages).
Proof.
  unfold _generate_txt_content_lines.
  enough (H : forall acc,
             fold_left (fun lines_ page => lines_ ++ txt_page_lines cpl page)
                       pages acc
             = acc ++ concat (map (txt_page_lines cpl) pages))
    by apply (H []).
  induction pages as [|p pages IH]; intros acc; simpl.
  - now rewrite app_nil_r.
  - now rewrite IH, <- app_assoc.
Qed.

(** C6 on the two-page sample: the method of the processor writes the
    bare line texts, with a ruled heading before the second page and no
    marker at all, where the serializer that the repository's test puts
    in its place writes the start, line and end markers. *)
Theorem txt_content_has_no_markers :
  _generate_txt_content_lines 4 two_pages
  = [ lit "ABC"; [];
      []; lit "===="; [31532%N] ++ lit " 2 " ++ [39029%N]; lit "====" ; [];
      lit "DEFG"; [] ]
  /\ ~ In (page_start_tag 1) (_generate_txt_content_lines 4 two_pages)
  /\ ~ In (line_tag 1 1 ++ lit " ABC") (_generate_txt_content_lines 4 two_pages)
  /\ ~ In (page_end_tag 1) (_generate_txt_content_lines 4 two_pages)
  /\ generate_txt_content two_pages
     = join newline
         [ lit "<PAGE_001_START>"; [];
           lit "<LINE_001_01> ABC";
           lit "<PAGE_001_END>"; [];
           [];
           lit "<PAGE_002_START>"; [];
           lit "<LINE_002_01> DEFG";
           lit "<PAGE_002_END>"; [] ]
  /\ _generate_txt_content 4 two_pages <> generate_txt_content two_pages.
Proof.
  assert (E : _generate_txt_content_lines 4 two_pages
    = [ lit "ABC"; [];
        []; lit "===="; [31532%N] ++ lit " 2 " ++ [39029%N]; lit "====" ; [];
        lit "DEFG"; [] ]) by (vm_compute; reflexivity).
  split; [exact E|].
  split; [intros H; vm_compute in H; intuition discriminate|].
  split; [intros H; vm_compute in H; intuition discriminate|].
  split; [intros H; vm_compute in H; intuition discriminate|].
  split; [vm_compute; reflexivity|].
  vm_compute. discriminate.
Qed.

(** ** The scenarios of the specification *)

(** Scenario A: AB, CD, E with capacity 3 and two lines per page. *)
Example scenario_A :
  _generate_pages 3 2 [tok "AB" 0 2; tok "CD" 2 4; tok "E" 4 5] []
  = [ {| page_id := 1;
         lines := [ new_line_info (lit "AB") 0 [tok "AB" 0 2];
                    new_line_info (lit "CDE") 2 [tok "CD" 2 4; tok "E" 4 5] ];
         entities := [];
         total_chars := 5 |} ].
Proof. vm_compute. reflexivity. Qed.

(** Scenario B: one token longer than the capacity. *)
Example scenario_B :
  _generate_pages 3 18 [tok "ABCDEFGH" 0 8] []
  = [ {| page_id := 1;
         lines := [ new_line_info (lit "ABCDEFGH") 0 [tok "ABCDEFGH" 0 8] ];
         entities := [];
         total_chars := 8 |} ].
Proof. vm_compute. reflexivity. Qed.

(** Scenario C: an entity over two lines goes to the first of them. *)
Example scenario_C :
  entities
    (set_entities
       {| page_id := 1;
          lines := [ mkLineInfo (lit "abc") 0 3 []; mkLineInfo (lit "defg") 3 4 [] ];
          entities := []; total_chars := 7 |}
       (page_entities_of
          {| page_id := 1;
             lines := [ mkLineInfo (lit "abc") 0 3 [];
                        mkLineInfo (lit "defg") 3 4 [] ];
             entities := []; total_chars := 7 |}
          [ {| ent_text := lit "bcde"; ent_type := lit "ORG";
               ent_start := 1; ent_end := 5 |} ]))
  = [ {| pe_text := lit "bcde"; pe_type := lit "ORG";
         pe_start := 1; pe_end := 5; pe_line_idx := 0 |} ].
Proof. vm_compute. reflexivity. Qed.

(** A token without text leaves no trace in the lines. *)
Example empty_token_vanishes :
  map li_tokens
      (all_lines (_generate_pages 2 1 [tok "ABC" 0 3; tok "" 3 3] []))
  = [ [tok "ABC" 0 3] ].
Proof. vm_compute. reflexivity. Qed.

(** * Further properties of the engine *)

(** ** Lines as the builder makes them *)

(** X1: Every emitted line has text, a [length] equal to the length of its
    text, at least one token, and for text the texts of its tokens in
    order; whatever the two capacities are. *)
Theorem emitted_lines_are_well_formed :
  forall (chars_per_line lines_per_page : Z) (tokens : list TokenInfo)
         (ents : list EntityInfo),
    Forall (fun l => li_text l <> []
                     /\ li_length l = len (li_text l)
                     /\ 0 < li_length l
                     /\ li_tokens l <> []
                     /\ li_text l = concat (map tok_text (li_tokens l)))
           (all_lines
              (_generate_pages chars_per_line lines_per_page tokens ents)).
Proof.
  intros cpl lpp tokens ents. unfold _generate_pages.
  rewrite add_entities_all_lines.
  eapply Forall_impl; [apply (build_pages_wf cpl lpp tokens)|].
  intros l (Hne & Hlen & Htext). repeat split; auto.
  - rewrite Hlen. pose proof (len_nonneg (li_text l)).
    assert (len (li_text l) <> 0) by (rewrite len_zero; exact Hne). lia.
  - intros Hnil. rewrite Hnil in Htext. simpl in Htext. contradiction.
Qed.

(** ** Tokens are kept in order *)

Lemma no_text_no_tokens (ts : list TokenInfo) :
  concat (map tok_text ts) = [] -> List.filter has_text ts = [].
Proof.
  induction ts as [|t ts IH]; simpl; [reflexivity|].
  intros H. apply app_eq_nil in H as [Ht Hts].
  unfold has_text at 1. rewrite Ht. simpl. now apply IH.
Qed.

Lemma tokens_closed_line (st : LoopState) :
  concat (map li_tokens (closed_line st))
  = if truthy (st_current_line st) then st_current_line_tokens st else [].
Proof.
  unfold closed_line. destruct (truthy (st_current_line st)); simpl;
    [apply app_nil_r | reflexivity].
Qed.

(** The tokens of the lines handed over once the buffer is closed: the
    tokens held, less a buffer without text. *)
Lemma tokens_after_close (st : LoopState) :
  wf_inv st ->
  sublist (concat (map li_tokens (emitted st ++ closed_line st))) (kept st)
  /\ List.filter has_text
       (concat (map li_tokens (emitted st ++ closed_line st)))
     = List.filter has_text (kept st).
Proof.
  intros [_ Hc]. unfold kept.
  rewrite map_app, concat_app, tokens_closed_line.
  destruct (truthy (st_current_line st)) eqn:E; [now split|].
  apply truthy_false in E. rewrite Hc in E.
  rewrite app_nil_r, List.filter_app, (no_text_no_tokens _ E), app_nil_r.
  split; [|reflexivity]. now apply sublist_inserts_r.
Qed.

Section TokenOrder.

Variables cpl lpp : Z.

Lemma kept_loop_body (st : LoopState) (t : TokenInfo) :
  kept (loop_body cpl lpp st t)
  = (if _should_break_line cpl (st_current_line st) t
                           (st_current_line_tokens st)
     then concat (map li_tokens (emitted st ++ closed_line st))
     else kept st) ++ [t].
Proof.
  unfold kept.
  rewrite emitted_loop_body, current_tokens_loop_body.
  destruct (_should_break_line _ _ _ _); simpl.
  - reflexivity.
  - now rewrite app_nil_r, app_assoc.
Qed.

Lemma tokens_inv_step (seen : list TokenInfo) (st : LoopState) (t : TokenInfo) :
  wf_inv st /\ tokens_inv seen st ->
  wf_inv (loop_body cpl lpp st t)
  /\ tokens_inv (seen ++ [t]) (loop_body cpl lpp st t).
Proof.
  intros (Hwf & Hsub & Hfil). split; [now apply wf_inv_step|].
  destruct (tokens_after_close st Hwf) as [Hsub' Hfil'].
  unfold tokens_inv. rewrite kept_loop_body.
  destruct (_should_break_line _ _ _ _); rewrite !List.filter_app; split.
  - apply sublist_app; [|reflexivity]. now transitivity (kept st).
  - now rewrite Hfil', Hfil.
  - now apply sublist_app.
  - now rewrite Hfil.
Qed.

Lemma build_pages_tokens (tokens : list TokenInfo) :
  sublist (concat (map li_tokens (all_lines (build_pages cpl lpp tokens))))
          tokens
  /\ List.filter has_text
       (concat (map li_tokens (all_lines (build_pages cpl lpp tokens))))
     = List.filter has_text tokens.
Proof.
  rewrite all_lines_build_pages.
  set (st := fold_left (loop_body cpl lpp) tokens initial_state).
  assert (H : wf_inv st /\ tokens_inv tokens st).
  { apply (fold_left_invariant_prefix (loop_body cpl lpp)
             (fun seen a => wf_inv a /\ tokens_inv seen a)
             tokens_inv_step tokens [] initial_state).
    repeat split; constructor. }
  destruct H as (Hwf & Hsub & Hfil).
  destruct (tokens_after_close st Hwf) as [Hsub' Hfil'].
  split; [now transitivity (kept st) | now rewrite Hfil'].
Qed.

End TokenOrder.

Lemma filter_all {A} (f : A -> bool) (l : list A) :
  Forall (fun x => f x = true) l -> List.filter f l = l.
Proof.
  induction 1 as [|x l Hx _ IH]; simpl; [reflexivity|].
  now rewrite Hx, IH.
Qed.

Lemma length_concat_ge {A} (ls : list (list A)) :
  Forall (fun l => l <> []) ls -> (length ls <= length (concat ls))%nat.
Proof.
  induction 1 as [|l ls Hl _ IH]; simpl; [lia|].
  rewrite length_app. destruct l; [contradiction | simpl; lia].
Qed.

(** X2: The token lists of the lines, put end to end, are the token stream
    less some tokens without text: order is kept, nothing is repeated,
    and every token that carries text is there.  So there are never more
    lines than tokens, and a stream whose tokens all carry text is
    divided into the lines exactly. *)
Theorem tokens_keep_their_order :
  forall (chars_per_line lines_per_page : Z) (tokens : list TokenInfo)
         (ents : list EntityInfo),
    let ls :=
      all_lines (_generate_pages chars_per_line lines_per_page tokens ents) in
    sublist (concat (map li_tokens ls)) tokens
    /\ List.filter has_text (concat (map li_tokens ls))
       = List.filter has_text tokens
    /\ (length ls <= length tokens)%nat
    /\ (Forall (fun t => tok_text t <> []) tokens ->
        concat (map li_tokens ls) = tokens).
Proof.
  intros cpl lpp tokens ents ls. subst ls. unfold _generate_pages.
  rewrite add_entities_all_lines.
  destruct (build_pages_tokens cpl lpp tokens) as [Hsub Hfil].
  split; [exact Hsub|]. split; [exact Hfil|]. split.
  - apply sublist_length in Hsub.
    pose proof (build_pages_wf cpl lpp tokens) as Hwf.
    assert (Hne : Forall (fun ts : list TokenInfo => ts <> [])
                    (map li_tokens (all_lines (build_pages cpl lpp tokens)))).
    { apply Forall_map. eapply Forall_impl; [exact Hwf|].
      intros l (Hne & _ & Htext) Hnil. simpl in Hnil.
      rewrite Hnil in Htext. simpl in Htext. contradiction. }
    apply length_concat_ge in Hne. rewrite length_map in Hne. lia.
  - intros Hall.
    assert (Hin : Forall (fun t => has_text t = true) tokens).
    { eapply Forall_impl; [exact Hall|].
      intros t Ht. now apply truthy_true. }
    rewrite (filter_all _ _ Hin) in Hfil. rewrite <- Hfil at 2.
    symmetry. apply filter_all.
    apply Forall_forall. intros t Ht.
    rewrite Forall_forall in Hin. apply Hin.
    eapply elem_of_sublist; [exact Ht | exact Hsub].
Qed.

(** ** Character counts *)

Lemma sum_Z_app (xs ys : list Z) : sum_Z (xs ++ ys) = sum_Z xs + sum_Z ys.
Proof.
  induction xs as [|x xs IH]; simpl.
  - reflexivity.
  - rewrite !sum_Z_cons, IH. lia.
Qed.

Lemma sum_Z_concat (xss : list (list Z)) :
  sum_Z (concat xss) = sum_Z (map sum_Z xss).
Proof.
  induction xss as [|xs xss IH]; simpl; [reflexivity|].
  now rewrite sum_Z_app, sum_Z_cons, IH.
Qed.

Lemma page_total_append (p : PageLayout) (cur : pystr) (off : Z)
    (toks : list TokenInfo) :
  page_total_ok p ->
  page_total_ok (page_append_line p (new_line_info cur off toks) (len cur)).
Proof.
  unfold page_total_ok. intros H. simpl.
  rewrite map_app, sum_Z_app, H. simpl. rewrite sum_Z_cons.
  change (sum_Z []) with 0. lia.
Qed.

Section Totals.

Variables cpl lpp : Z.

Lemma totals_inv_step (st : LoopState) (t : TokenInfo) :
  totals_inv st -> totals_inv (loop_body cpl lpp st t).
Proof.
  intros [Hps Hp]. unfold loop_body.
  destruct (_should_break_line _ _ _ _); [|now split].
  assert (H1 : totals_inv (close_line st)).
  { unfold close_line. destruct (truthy (st_current_line st)); [|now split].
    split; [exact Hps|]. simpl. now apply page_total_append. }
  destruct H1 as [Hps1 Hp1].
  unfold totals_inv, add_token, reset_line, close_page. simpl.
  destruct (_ >=? lpp); simpl; [|now split].
  split; [|reflexivity].
  apply Forall_app. split; [exact Hps1 | now constructor].
Qed.

Lemma build_pages_totals (tokens : list TokenInfo) :
  Forall page_total_ok (build_pages cpl lpp tokens).
Proof.
  unfold build_pages.
  set (st := fold_left (loop_body cpl lpp) tokens initial_state).
  assert (H : totals_inv st).
  { apply fold_left_invariant; [exact totals_inv_step|].
    split; [constructor | reflexivity]. }
  destruct H as [Hps Hp].
  assert (Hl : page_total_ok (last_line st)).
  { unfold last_line. destruct (truthy (st_current_line st)); [|exact Hp].
    now apply page_total_append. }
  unfold last_page. destruct (lines (last_line st)); [exact Hps|].
  apply Forall_app. split; [exact Hps | now constructor].
Qed.

End Totals.

Lemma add_entities_totals (pages : list PageLayout) (ents : list EntityInfo) :
  Forall page_total_ok pages ->
  Forall page_total_ok (_add_entities_to_pages pages ents).
Proof.
  intros H. unfold _add_entities_to_pages. apply Forall_map.
  eapply Forall_impl; [exact H|]. now intros p Hp.
Qed.

Lemma sum_totals_all_lines (pages : list PageLayout) :
  Forall page_total_ok pages ->
  sum_Z (map total_chars pages) = sum_Z (map li_length (all_lines pages)).
Proof.
  intros H. unfold all_lines.
  rewrite concat_map, sum_Z_concat, !map_map. f_equal.
  induction H as [|p ps Hp _ IH]; simpl; [reflexivity|].
  now rewrite Hp, IH.
Qed.

Lemma sum_lengths_wf (ls : list LineInfo) :
  Forall line_wf ls ->
  sum_Z (map li_length ls) = len (concat (map li_text ls)).
Proof.
  induction 1 as [|l ls (_ & Hl & _) _ IH]; simpl; [reflexivity|].
  now rewrite sum_Z_cons, len_app, Hl, IH.
Qed.

(** X3: The [total_chars] of every page is the sum of the [length] fields of
    its lines, and the [total_chars] of the metadata, the sum over the
    pages, is the number of characters of all the tokens. *)
Theorem total_chars_count_the_text :
  forall (chars_per_line lines_per_page : Z) (tokens : list TokenInfo)
         (ents : list EntityInfo),
    let doc := create_layout_json chars_per_line lines_per_page tokens ents in
    Forall (fun p => total_chars p = sum_Z (map li_length (lines p))
                     /\ total_chars p = len (concat (map li_text (lines p))))
           (ld_pages doc)
    /\ md_total_chars doc = sum_Z (map li_length (all_lines (ld_pages doc)))
    /\ md_total_chars doc = len (concat (map tok_text tokens))
    /\ md_total_chars doc
       = sum_Z (map (fun t => len (tok_text t)) tokens).
Proof.
  intros cpl lpp tokens ents doc. subst doc.
  unfold create_layout_json, _generate_pages. simpl.
  set (pages := build_pages cpl lpp tokens).
  assert (Htot : Forall page_total_ok (_add_entities_to_pages pages ents))
    by apply add_entities_totals, build_pages_totals.
  assert (Hwf : Forall line_wf (all_lines pages)) by apply build_pages_wf.
  assert (Hsum : sum_Z (map total_chars (_add_entities_to_pages pages ents))
                 = len (concat (map tok_text tokens))).
  { rewrite (sum_totals_all_lines _ Htot), add_entities_all_lines.
    rewrite (sum_lengths_wf _ Hwf). unfold pages.
    now rewrite build_pages_text. }
  split; [|split; [|split]].
  - apply Forall_forall. intros p Hp.
    rewrite Forall_forall in Htot. specialize (Htot p Hp).
    split; [exact Htot|]. rewrite Htot. apply sum_lengths_wf.
    rewrite <- add_entities_all_lines with (ents := ents) in Hwf.
    unfold all_lines in Hwf. rewrite Forall_concat in Hwf.
    rewrite Forall_forall in Hwf. apply Hwf.
    apply list_elem_of_In, in_map, list_elem_of_In, Hp.
  - now apply sum_totals_all_lines.
  - exact Hsum.
  - rewrite Hsum, <- (map_map tok_text len). symmetry.
    apply sum_Z_len_concat.
Qed.

(** ** Lines are filled greedily *)

Lemma greedy_snoc (cpl : Z) (ls : list LineInfo) (b : LineInfo) :
  greedy cpl ls ->
  (forall a, last ls = Some a -> no_room cpl a b) ->
  greedy cpl (ls ++ [b]).
Proof.
  induction ls as [|a rest IH]; intros Hg Hl; simpl.
  - now split.
  - destruct Hg as [Ha Hg]. destruct rest as [|c r]; simpl in *.
    + split; [now apply Hl | now split].
    + split; [exact Ha|]. now apply IH.
Qed.

Lemma greedy_lookup (cpl : Z) (ls : list LineInfo) :
  greedy cpl ls ->
  forall (i : nat) (a b : LineInfo),
    ls !! i = Some a -> ls !! S i = Some b -> no_room cpl a b.
Proof.
  induction ls as [|x rest IH]; intros Hg i a b Ha Hb; [discriminate|].
  destruct Hg as [Hx Hg]. destruct i as [|i]; simpl in *.
  - injection Ha as <-. destruct rest as [|c r]; [discriminate|].
    simpl in Hb. now injection Hb as <-.
  - now apply (IH Hg i a b).
Qed.

Section Greedy.

Variables cpl lpp : Z.

Lemma greedy_close (st : LoopState) :
  greedy_inv cpl st -> greedy cpl (emitted st ++ closed_line st).
Proof.
  intros (Hg & _ & Hl). unfold closed_line.
  destruct (truthy (st_current_line st)); [|now rewrite app_nil_r].
  apply greedy_snoc; [exact Hg|]. intros a Ha. now apply Hl.
Qed.

Lemma greedy_inv_step (st : LoopState) (t : TokenInfo) :
  wf_inv st /\ greedy_inv cpl st ->
  wf_inv (loop_body cpl lpp st t) /\ greedy_inv cpl (loop_body cpl lpp st t).
Proof.
  intros [Hwf Hinv]. split; [now apply wf_inv_step|].
  pose proof (greedy_close st Hinv) as Hclose.
  destruct Hinv as (Hg & Hz & Hl). destruct Hwf as [Hlines _].
  unfold greedy_inv.
  rewrite emitted_loop_body, current_tokens_loop_body.
  rewrite should_break_line_capacity.
  destruct (capacity_exceeded cpl (st_current_line st) t) eqn:E.
  - apply capacity_exceeded_true in E.
    split; [exact Hclose|]. split; [discriminate|].
    intros a Ha. exists t. split; [reflexivity|].
    unfold closed_line in Ha.
    destruct (truthy (st_current_line st)) eqn:F.
    + rewrite last_snoc in Ha. injection Ha as <-. simpl. lia.
    + rewrite app_nil_r in Ha. apply truthy_false in F. rewrite F in E.
      apply last_Some_elem_of in Ha. rewrite Forall_forall in Hlines.
      destruct (Hlines a Ha) as (_ & Hlen & _).
      pose proof (len_nonneg (li_text a)).
      change (len []) with 0 in E. lia.
  - rewrite app_nil_r. split; [exact Hg|]. split.
    + intros Hnil. now apply app_eq_nil in Hnil as [_ ?].
    + intros a Ha. destruct (Hl a Ha) as (t0 & Ht0 & Hroom).
      exists t0. split; [|exact Hroom].
      destruct (st_current_line_tokens st); [discriminate | exact Ht0].
Qed.

Lemma build_pages_greedy (tokens : list TokenInfo) :
  greedy cpl (all_lines (build_pages cpl lpp tokens)).
Proof.
  rewrite all_lines_build_pages. apply greedy_close.
  apply (fold_left_invariant (loop_body cpl lpp)
           (fun a => wf_inv a /\ greedy_inv cpl a) greedy_inv_step).
  repeat split; try constructor. intros a Ha. discriminate.
Qed.

End Greedy.

(** X4: No line is closed early: the first token of every line but the first
    would have carried the line before it beyond [chars_per_line]. *)
Theorem lines_are_filled_greedily :
  forall (chars_per_line lines_per_page : Z) (tokens : list TokenInfo)
         (ents : list EntityInfo) (i : nat) (a b : LineInfo),
    all_lines (_generate_pages chars_per_line lines_per_page tokens ents)
      !! i = Some a ->
    all_lines (_generate_pages chars_per_line lines_per_page tokens ents)
      !! S i = Some b ->
    exists t, head (li_tokens b) = Some t
              /\ li_length a + len (tok_text t) > chars_per_line.
Proof.
  intros cpl lpp tokens ents i a b. unfold _generate_pages.
  rewrite add_entities_all_lines.
  apply greedy_lookup, build_pages_greedy.
Qed.

Lemma lines_are_filled_greedily_witness :
  exists t, head (li_tokens (new_line_info (lit "CDE") 2
                                           [tok "CD" 2 4; tok "E" 4 5]))
            = Some t
            /\ li_length (new_line_info (lit "AB") 0 [tok "AB" 0 2])
               + len (tok_text t) > 3.
Proof.
  apply (lines_are_filled_greedily 3 2
           [tok "AB" 0 2; tok "CD" 2 4; tok "E" 4 5] [] 0%nat);
    vm_compute; reflexivity.
Defined.

(** ** Where a line is *)

Lemma lookup_concat_pages {A} (L : nat) (F T : list (list A)) :
  (0 < L)%nat ->
  Forall (fun l => length l = L) F ->
  T = [] \/ (exists x, T = [x] /\ (length x <= L)%nat) ->
  forall k : nat,
    concat (F ++ T) !! k
    = (F ++ T) !! (k / L)%nat ≫= (fun l => l !! (k mod L)%nat).
Proof.
  intros HL HF HT. induction HF as [|f F Hf _ IH]; intros k.
  - destruct HT as [-> | (x & -> & Hx)]; simpl; [reflexivity|].
    rewrite app_nil_r. destruct (Nat.lt_ge_cases k L) as [Hk | Hk].
    + now rewrite Nat.div_small, Nat.mod_small.
    + rewrite (lookup_ge_None_2 x k) by lia.
      assert (k / L <> 0)%nat by (rewrite Nat.div_small_iff; lia).
      destruct (k / L)%nat; [congruence | reflexivity].
  - simpl. destruct (Nat.lt_ge_cases k L) as [Hk | Hk].
    + rewrite Nat.div_small, Nat.mod_small by lia. simpl.
      apply lookup_app_l. lia.
    + rewrite lookup_app_r by lia. rewrite Hf, IH.
      assert (Hd : (k / L)%nat = S ((k - L) / L)).
      { replace k with ((k - L) + 1 * L)%nat at 1 by lia.
        rewrite Nat.div_add by lia. lia. }
      assert (Hm : (k mod L)%nat = ((k - L) mod L)%nat).
      { replace k with ((k - L) + 1 * L)%nat at 1 by lia.
        now rewrite Nat.Div0.mod_add. }
      now rewrite Hd, Hm.
Qed.

Lemma length_concat_full {A} (L : nat) (F : list (list A)) :
  Forall (fun l => length l = L) F ->
  length (concat F) = (L * length F)%nat.
Proof.
  induction 1 as [|f F Hf _ IH]; simpl; [lia|].
  rewrite length_app, Hf, IH. lia.
Qed.

(** X5: With a positive [lines_per_page] the number of pages is the number
    of lines divided by [lines_per_page], rounded up, and line [k] of the
    document (counted from 0) is line [k mod lines_per_page] of page
    [k / lines_per_page] of the list. *)
Theorem lines_are_found_by_division :
  forall (chars_per_line lines_per_page : Z) (tokens : list TokenInfo)
         (ents : list EntityInfo),
    0 < lines_per_page ->
    let pages := _generate_pages chars_per_line lines_per_page tokens ents in
    Z.of_nat (length pages)
    = (Z.of_nat (length (all_lines pages)) + lines_per_page - 1)
      / lines_per_page
    /\ (forall (k : nat) (l : LineInfo),
          all_lines pages !! k = Some l
          <-> exists p,
                pages !! (k / Z.to_nat lines_per_page)%nat = Some p
                /\ lines p !! (k mod Z.to_nat lines_per_page)%nat = Some l).
Proof.
  intros cpl lpp tokens ents Hpos pages.
  destruct (build_pages_shape cpl lpp Hpos tokens)
    as (full & tail & Heq & Hfull & Htail).
  assert (HL : (0 < Z.to_nat lpp)%nat) by lia.
  assert (Hlines : map lines pages = map lines full ++ map lines tail).
  { subst pages. unfold _generate_pages.
    now rewrite add_entities_lines, Heq, map_app. }
  assert (HF : Forall (fun l : list LineInfo => length l = Z.to_nat lpp)
                 (map lines full)).
  { apply Forall_map. eapply Forall_impl; [exact Hfull|].
    intros p Hp. simpl in *. lia. }
  assert (HT : map lines tail = []
               \/ exists x, map lines tail = [x]
                            /\ (length x <= Z.to_nat lpp)%nat).
  { destruct Htail as [-> | (p & -> & Hp)]; [now left|].
    right. exists (lines p). split; [reflexivity | lia]. }
  split.
  - rewrite <- (length_map lines pages). unfold all_lines.
    rewrite Hlines, concat_app, !length_app.
    rewrite (length_concat_full _ _ HF), !length_map.
    destruct Htail as [-> | (p & -> & Hp)]; simpl.
    + apply (Z.div_unique _ _ _ (lpp - 1)); [lia|].
      rewrite !Nat2Z.inj_add, Nat2Z.inj_mul, Z2Nat.id by lia. simpl.
      change (Z.of_nat 0) with 0. ring.
    + apply (Z.div_unique _ _ _ (Z.of_nat (length (lines p)) - 1)); [lia|].
      rewrite !Nat2Z.inj_add, Nat2Z.inj_mul, Z2Nat.id by lia. simpl.
      rewrite app_nil_r. change (Z.of_nat 1) with 1. ring.
  - intros k l. unfold all_lines.
    rewrite Hlines, (lookup_concat_pages _ _ _ HL HF HT k), <- Hlines.
    destruct (pages !! (k / Z.to_nat lpp)%nat) as [p|] eqn:Hp.
    + rewrite (lookup_map lines pages _ p Hp). simpl. split.
      * intros Hl. now exists p.
      * intros (q & Hq & Hl). now injection Hq as <-.
    + assert (Hnone : map lines pages !! (k / Z.to_nat lpp)%nat = None).
      { apply lookup_ge_None. rewrite length_map.
        now apply lookup_ge_None. }
      rewrite Hnone. simpl. split; [discriminate|].
      intros (q & Hq & _). discriminate.
Qed.

Lemma lines_are_found_by_division_witness :
  0 < 1
  /\ Z.of_nat (length two_pages)
     = (Z.of_nat (length (all_lines two_pages)) + 1 - 1) / 1.
Proof.
  split; [lia|].
  apply (lines_are_found_by_division 4 1 two_page_tokens [crossing_entity]).
  lia.
Defined.

(** ** What a projected record says *)

Lemma find_first {A} (f : A -> bool) (ls : list A) (l : A) :
  List.find f ls = Some l ->
  exists k : nat,
    ls !! k = Some l /\ f l = true
    /\ (forall (j : nat) (l' : A),
          (j < k)%nat -> ls !! j = Some l' -> f l' = false).
Proof.
  induction ls as [|x ls IH]; simpl; [discriminate|].
  destruct (f x) eqn:E.
  - intros H. injection H as <-. exists 0%nat.
    repeat split; auto. intros j l' Hj. lia.
  - intros H. destruct (IH H) as (k & Hk & Hl & Hbefore).
    exists (S k). repeat split; auto.
    intros [|j] l' Hj Hl'; simpl in Hl'.
    + now injection Hl' as <-.
    + apply (Hbefore j l'); [lia | exact Hl'].
Qed.

Lemma index_first {A} `{EqDecision A} (l : A) (ls : list A) :
  forall k : nat,
    ls !! k = Some l ->
    (forall (j : nat) (l' : A), (j < k)%nat -> ls !! j = Some l' -> l' <> l) ->
    index l ls = k.
Proof.
  induction ls as [|x ls IH]; intros k Hk Hbefore; [discriminate|].
  simpl. destruct (decide (x = l)) as [-> | Hne].
  - destruct k as [|k]; [reflexivity|].
    exfalso. apply (Hbefore 0%nat l); [lia | reflexivity | reflexivity].
  - destruct k as [|k]; simpl in Hk.
    + injection Hk as ->. contradiction.
    + f_equal. apply IH; [exact Hk|].
      intros j l' Hj Hl'. apply (Hbefore (S j) l'); [lia | exact Hl'].
Qed.

Lemma overlaps_relative (e : EntityInfo) (l : LineInfo) :
  overlaps e l = true ->
  0 <= ent_start e - li_offset l < li_length l
  \/ 0 < ent_end e - li_offset l <= li_length l.
Proof.
  unfold overlaps. intros H. apply orb_true_iff in H as [H | H];
    apply andb_true_iff in H as [H1 H2].
  - left. rewrite Z.geb_leb in H1. apply Z.leb_le in H1.
    apply Z.ltb_lt in H2. lia.
  - right. rewrite Z.gtb_ltb in H1. apply Z.ltb_lt in H1.
    apply Z.leb_le in H2. lia.
Qed.

(** X8: Every record on a projected page comes from an entity of the list
    and from the first line of that page that overlaps it: [line_idx] is
    the position of that line, [start] and [end] are counted from its
    offset, and the start falls inside the line or the end does. *)
Theorem projected_records_point_to_first_line :
  forall (pages : list PageLayout) (ents : list EntityInfo),
    Forall
      (fun p =>
         Forall
           (fun r =>
              exists (e : EntityInfo) (l : LineInfo) (k : nat),
                In e ents
                /\ lines p !! k = Some l
                /\ pe_line_idx r = Z.of_nat k
                /\ overlaps e l = true
                /\ (forall (j : nat) (l' : LineInfo),
                      (j < k)%nat -> lines p !! j = Some l' ->
                      overlaps e l' = false)
                /\ pe_text r = ent_text e
                /\ pe_type r = ent_type e
                /\ pe_start r = ent_start e - li_offset l
                /\ pe_end r = ent_end e - li_offset l
                /\ (0 <= pe_start r < li_length l
                    \/ 0 < pe_end r <= li_length l))
           (entities p))
      (_add_entities_to_pages pages ents).
Proof.
  intros pages ents. unfold _add_entities_to_pages.
  apply Forall_map, Forall_forall. intros p _. simpl.
  rewrite page_entities_of_omap. apply Forall_forall. intros r Hr.
  apply list_elem_of_omap in Hr as (e & He & Hr).
  unfold entity_on_page in Hr.
  destruct (List.find (overlaps e) (lines p)) as [l|] eqn:Hfind;
    [|discriminate].
  simpl in Hr. injection Hr as <-.
  destruct (find_first _ _ _ Hfind) as (k & Hk & Hov & Hbefore).
  exists e, l, k. simpl.
  split; [now apply list_elem_of_In|]. split; [exact Hk|]. split.
  - f_equal. apply index_first; [exact Hk|].
    intros j l' Hj Hl' ->. rewrite (Hbefore j l Hj Hl') in Hov. discriminate.
  - repeat split; auto; now apply overlaps_relative.
Qed.

(** X9: Projection writes the [entities] of every page anew and touches
    nothing else.  What an earlier projection left is replaced, so that
    projecting other entities onto a finished document gives the
    document that the layout pass makes for them; projecting no entity
    clears the lists. *)
Theorem projection_replaces_entities :
  forall (chars_per_line lines_per_page : Z) (tokens : list TokenInfo)
         (pages : list PageLayout) (ents1 ents2 : list EntityInfo),
    _add_entities_to_pages (_add_entities_to_pages pages ents1) ents2
    = _add_entities_to_pages pages ents2
    /\ _add_entities_to_pages
         (_generate_pages chars_per_line lines_per_page tokens ents1) ents2
       = _generate_pages chars_per_line lines_per_page tokens ents2
    /\ Forall (fun p => entities p = []) (_add_entities_to_pages pages [])
    /\ map lines (_add_entities_to_pages pages ents1) = map lines pages
    /\ map page_id (_add_entities_to_pages pages ents1) = map page_id pages
    /\ map total_chars (_add_entities_to_pages pages ents1)
       = map total_chars pages.
Proof.
  intros cpl lpp tokens pages ents1 ents2.
  assert (H : forall ps,
             _add_entities_to_pages (_add_entities_to_pages ps ents1) ents2
             = _add_entities_to_pages ps ents2).
  { intros ps. unfold _add_entities_to_pages.
    rewrite map_map. now apply map_ext. }
  split; [apply H|]. split; [apply H|]. split.
  - unfold _add_entities_to_pages. apply Forall_map.
    apply Forall_forall. now intros p _.
  - unfold _add_entities_to_pages. rewrite !map_map.
    repeat split; now apply map_ext.
Qed.

(** ** What [find] reports *)

Lemma starts_with_app (sub rest : pystr) : starts_with sub (sub ++ rest) = true.
Proof.
  induction sub as [|c sub IH]; simpl; [reflexivity|].
  now rewrite N.eqb_refl, IH.
Qed.

Lemma starts_with_take (sub s : pystr) :
  starts_with sub s = true
  <-> (length sub <= length s)%nat /\ take (length sub) s = sub.
Proof.
  revert s. induction sub as [|c sub IH]; intros s; simpl.
  - split; [intros _; split; [lia | reflexivity] | reflexivity].
  - destruct s as [|d s]; simpl.
    + split; [discriminate | intros [H _]; lia].
    + rewrite andb_true_iff, N.eqb_eq, IH. split.
      * intros (-> & Hlen & ->). split; [lia | reflexivity].
      * intros [Hlen Heq]. injection Heq as -> Heq.
        repeat split; [lia | exact Heq].
Qed.

Lemma find_from_unfold (sub s : pystr) (base : Z) :
  find_from sub s base
  = if starts_with sub s then base
    else match s with
         | [] => -1
         | _ :: s' => find_from sub s' (base + 1)
         end.
Proof. now destruct s. Qed.

Lemma find_from_found (sub : pystr) (s : pystr) :
  forall (base i : Z),
    find_from sub s base = i -> i <> -1 ->
    exists k : nat,
      i = base + Z.of_nat k /\ (k <= length s)%nat
      /\ starts_with sub (drop k s) = true
      /\ (forall j : nat, (j < k)%nat -> starts_with sub (drop j s) = false).
Proof.
  induction s as [|c s IH]; intros base i Hi Hne;
    rewrite find_from_unfold in Hi.
  - destruct (starts_with sub []) eqn:E; [|congruence].
    exists 0%nat. simpl. repeat split; [lia | lia | exact E | intros j; lia].
  - destruct (starts_with sub (c :: s)) eqn:E.
    + exists 0%nat. simpl.
      repeat split; [lia | lia | exact E | intros j; lia].
    + destruct (IH _ _ Hi Hne) as (k & -> & Hk & Hat & Hbefore).
      exists (S k). simpl. repeat split; [lia | lia | exact Hat |].
      intros [|j] Hj; [exact E | apply Hbefore; lia].
Qed.

Lemma find_from_absent (sub : pystr) (s : pystr) :
  forall base : Z,
    0 <= base -> find_from sub s base = -1 ->
    forall k : nat, (k <= length s)%nat -> starts_with sub (drop k s) = false.
Proof.
  induction s as [|c s IH]; intros base Hb Hf k Hk;
    rewrite find_from_unfold in Hf.
  - destruct (starts_with sub []) eqn:E; [lia|].
    simpl in Hk. replace k with 0%nat by lia. exact E.
  - destruct (starts_with sub (c :: s)) eqn:E; [lia|].
    destruct k as [|k]; [exact E|]. simpl.
    apply (IH (base + 1)); [lia | exact Hf | simpl in Hk; lia].
Qed.

Lemma occurs_at_starts_with (text word : pystr) (k : nat) :
  (k <= length text)%nat ->
  starts_with word (drop k text) = true <-> occurs_at text word (Z.of_nat k).
Proof.
  intros Hk. rewrite starts_with_take, length_drop.
  unfold occurs_at, slice, len.
  replace (Z.to_nat (Z.of_nat k + Z.of_nat (length word) - Z.of_nat k))
    with (length word) by lia.
  rewrite Nat2Z.id. split.
  - intros [Hlen Heq]. repeat split; [lia | lia | exact Heq].
  - intros (_ & Hlen & Heq). split; [lia | exact Heq].
Qed.

(** [find] from a start within the text: the position it reports is the
    first one from the start on where the word stands, and it reports -1
    only when the word stands nowhere from the start on. *)
Lemma find_spec (text word : pystr) (start : Z) :
  0 <= start ->
  (find text word start <> -1 ->
   start <= find text word start
   /\ occurs_at text word (find text word start)
   /\ (forall k, start <= k < find text word start ->
       ~ occurs_at text word k))
  /\ (find text word start = -1 ->
      forall k, start <= k -> ~ occurs_at text word k).
Proof.
  intros Hs. unfold find.
  destruct (start <? 0) eqn:E; [apply Z.ltb_lt in E; lia|]. clear E.
  destruct (start >? len text) eqn:E.
  - rewrite Z.gtb_ltb in E. apply Z.ltb_lt in E.
    split; [congruence|]. intros _ k Hk (_ & Hlen & _).
    pose proof (len_nonneg word). lia.
  - rewrite Z.gtb_ltb in E. apply Z.ltb_ge in E. unfold len in E.
    set (n := Z.to_nat start).
    assert (Hn : start = Z.of_nat n) by lia.
    assert (Hdrop : forall j : nat,
               drop j (drop n text) = drop (n + j) text)
      by (intros j; apply drop_drop).
    split.
    + intros Hne.
      destruct (find_from_found word (drop n text) start _ eq_refl Hne)
        as (k & Hi & Hk & Hat & Hbefore).
      rewrite length_drop in Hk. rewrite Hi.
      split; [lia|]. split.
      * rewrite Hn, <- Nat2Z.inj_add. rewrite Hdrop in Hat.
        apply occurs_at_starts_with; [lia | exact Hat].
      * intros j Hj Hocc.
        assert (Hj' : j = Z.of_nat (n + (Z.to_nat j - n))) by lia.
        rewrite Hj' in Hocc.
        apply occurs_at_starts_with in Hocc; [|lia].
        rewrite <- Hdrop, Hbefore in Hocc; [discriminate | lia].
    + intros Hf k Hk Hocc.
      pose proof Hocc as (_ & Hlen & _). pose proof (len_nonneg word).
      unfold len in Hlen.
      assert (Hk' : k = Z.of_nat (n + (Z.to_nat k - n))) by lia.
      rewrite Hk' in Hocc.
      apply occurs_at_starts_with in Hocc; [|lia].
      rewrite <- Hdrop in Hocc.
      rewrite (find_from_absent word (drop n text) start Hs Hf) in Hocc;
        [discriminate|].
      rewrite length_drop. lia.
Qed.

(** ** Spans against the source text *)

Lemma build_tokens_located (text : pystr) (ws pos : list pystr)
    (ner : list NerToken) (i : nat) (t : TokenInfo) :
  _build_tokens text ws pos ner !! i = Some t ->
  located text (last_end 0 (take i (_build_tokens text ws pos ner))) t
  /\ 0 <= last_end 0 (take i (_build_tokens text ws pos ner)).
Proof.
  unfold _build_tokens.
  destruct (track_inv_loop text (entity_map_of ner) (combine ws pos))
    as (Ht & _ & _).
  set (toks := fst (fold_left (build_token_step text (entity_map_of ner))
                              (combine ws pos) ([], 0))) in *.
  intros Hi. split; [now apply tracked_lookup|].
  apply (tracked_nonneg text); [lia|].
  rewrite <- (take_drop i toks) in Ht.
  now apply (tracked_app text (take i toks) (drop i toks) 0) in Ht.
Qed.

(** X10: A token whose text stands in the source at or after the end of the
    previous token carries the span of the first such place, so that
    [text[start:end]] is the token's text; only a token whose text
    stands nowhere from there on is put at the previous end. *)
Theorem build_tokens_spans_match_text :
  forall (text : pystr) (ws pos : list pystr) (ner : list NerToken)
         (i : nat) (t : TokenInfo),
    _build_tokens text ws pos ner !! i = Some t ->
    let o := last_end 0 (take i (_build_tokens text ws pos ner)) in
    (o <= tok_start t
     /\ tok_end t <= len text
     /\ slice text (tok_start t) (tok_end t) = tok_text t
     /\ (forall k, o <= k < tok_start t -> ~ occurs_at text (tok_text t) k))
    \/ (tok_start t = o
        /\ (forall k, o <= k -> ~ occurs_at text (tok_text t) k)).
Proof.
  intros text ws pos ner i t Hi o.
  destruct (build_tokens_located _ _ _ _ _ _ Hi) as [[Hs He] Ho].
  fold o in Hs, Ho.
  destruct (find_spec text (tok_text t) o Ho) as [Hfound Habsent].
  destruct (find text (tok_text t) o =? -1) eqn:E.
  - apply Z.eqb_eq in E. right. split; [exact Hs | now apply Habsent].
  - apply Z.eqb_neq in E. left.
    destruct (Hfound E) as (Hge & (H0 & Hlen & Hslice) & Hfirst).
    rewrite <- Hs in Hge, Hlen, Hslice, Hfirst. rewrite <- He in Hlen, Hslice.
    auto.
Qed.

Lemma build_tokens_spans_match_text_witness :
  (0 <= 6
   /\ 9 <= len (lit "hello world")
   /\ slice (lit "hello world") 6 9 = lit "wor"
   /\ (forall k, 5 <= k < 6 -> ~ occurs_at (lit "hello world") (lit "wor") k))
  \/ (6 = 5
      /\ (forall k, 5 <= k -> ~ occurs_at (lit "hello world") (lit "wor") k)).
Proof.
  pose proof (build_tokens_spans_match_text (lit "hello world")
                [lit "hello"; lit "wor"; lit "ld"]
                [lit "a"; lit "b"; lit "c"] [] 1%nat
                (mkTokenInfo (lit "wor") (lit "b") 6 9 false None)) as H.
  simpl in H. vm_compute in H. apply H. reflexivity.
Defined.

(** ** An exact segmentation *)

Lemma map_fst_combine_le {A B} (xs : list A) (ys : list B) :
  (length xs <= length ys)%nat -> map fst (combine xs ys) = xs.
Proof.
  revert ys. induction xs as [|x xs IH]; intros [|y ys] H; simpl in *;
    try reflexivity; try lia.
  f_equal. apply IH. lia.
Qed.

Lemma find_here (text word : pystr) (o : nat) :
  (o <= length text)%nat ->
  starts_with word (drop o text) = true ->
  find text word (Z.of_nat o) = Z.of_nat o.
Proof.
  intros Ho H. unfold find.
  destruct (Z.of_nat o <? 0) eqn:E; [apply Z.ltb_lt in E; lia|].
  destruct (Z.of_nat o >? len text) eqn:F.
  - rewrite Z.gtb_ltb in F. apply Z.ltb_lt in F. unfold len in F. lia.
  - rewrite Nat2Z.id, find_from_unfold, H. reflexivity.
Qed.

Lemma fold_exact (m : gmap (Z * Z) pystr) (wps : list (pystr * pystr)) :
  forall (pre rest : pystr) (toks : list TokenInfo),
    fold_left (build_token_step (pre ++ concat (map fst wps) ++ rest) m)
              wps (toks, len pre)
    = (toks ++ tile_tokens m (len pre) wps,
       len pre + len (concat (map fst wps))).
Proof.
  induction wps as [|[w p] wps IH]; intros pre rest toks; simpl.
  - rewrite app_nil_r. f_equal. unfold len. simpl. lia.
  - assert (Hf : find (pre ++ (w ++ concat (map fst wps)) ++ rest) w (len pre)
                 = len pre).
    { apply find_here.
      - rewrite length_app. lia.
      - rewrite drop_app_length, <- app_assoc. apply starts_with_app. }
    rewrite Hf.
    assert (Hne : (len pre =? -1) = false)
      by (apply Z.eqb_neq; pose proof (len_nonneg pre); lia).
    rewrite Hne.
    replace (pre ++ (w ++ concat (map fst wps)) ++ rest)
      with ((pre ++ w) ++ concat (map fst wps) ++ rest)
      by now rewrite <- !app_assoc.
    rewrite <- len_app, IH, len_app, <- app_assoc. simpl.
    f_equal. rewrite len_app. lia.
Qed.

Lemma tile_tokens_text (m : gmap (Z * Z) pystr) (wps : list (pystr * pystr)) :
  forall o : Z, map tok_text (tile_tokens m o wps) = map fst wps.
Proof.
  induction wps as [|[w p] wps IH]; intros o; simpl; [reflexivity|].
  now rewrite IH.
Qed.

Lemma tile_tokens_tiled (m : gmap (Z * Z) pystr) (wps : list (pystr * pystr)) :
  forall o : Z, tiled o (tile_tokens m o wps).
Proof.
  induction wps as [|[w p] wps IH]; intros o; simpl; [exact I|].
  repeat split. apply IH.
Qed.

Lemma tiled_lookup (toks : list TokenInfo) :
  forall (o : Z) (i : nat) (t : TokenInfo),
    tiled o toks -> toks !! i = Some t ->
    tok_start t = o + len (concat (map tok_text (take i toks)))
    /\ tok_end t = tok_start t + len (tok_text t).
Proof.
  induction toks as [|x toks IH]; intros o i t H Hi; [discriminate|].
  destruct H as (Hs & He & H). destruct i as [|i]; simpl in *.
  - injection Hi as <-. change (len []) with 0. lia.
  - destruct (IH _ _ _ H Hi) as [Hs' He']. rewrite len_app. lia.
Qed.

Lemma tiled_last_end (toks : list TokenInfo) :
  forall o : Z,
    tiled o toks -> last_end o toks = o + len (concat (map tok_text toks)).
Proof.
  induction toks as [|x toks IH]; intros o H.
  - unfold last_end, len. simpl. lia.
  - destruct H as (Hs & He & H).
    change (last_end o (x :: toks)) with (last_end (tok_end x) toks).
    rewrite (IH _ H). simpl. rewrite len_app. lia.
Qed.

Lemma slice_concat (ws : list pystr) (i : nat) (w : pystr) :
  ws !! i = Some w ->
  slice (concat ws) (len (concat (take i ws)))
        (len (concat (take i ws)) + len w) = w.
Proof.
  intros Hi. unfold slice, len.
  assert (E : concat ws = concat (take i ws) ++ w ++ concat (drop (S i) ws)).
  { rewrite <- (take_drop_middle ws i w Hi) at 1.
    now rewrite concat_app. }
  rewrite E, Nat2Z.id, drop_app_length.
  replace (Z.to_nat (Z.of_nat (length (concat (take i ws)))
                     + Z.of_nat (length w)
                     - Z.of_nat (length (concat (take i ws)))))
    with (length w) by lia.
  apply take_app_length.
Qed.

(** X11: When the words make up the text exactly and there is a tag for each
    word, no token falls back: the spans follow one another from 0 to
    the length of the text, token [i] starts after the words before it,
    and [text[start:end]] is its text. *)
Theorem build_tokens_of_exact_segmentation :
  forall (ws pos : list pystr) (ner : list NerToken),
    (length ws <= length pos)%nat ->
    let text := concat ws in
    let toks := _build_tokens text ws pos ner in
    map tok_text toks = ws
    /\ tiled 0 toks
    /\ last_end 0 toks = len text
    /\ (forall (i : nat) (t : TokenInfo),
          toks !! i = Some t ->
          tok_start t = len (concat (take i ws))
          /\ tok_end t = tok_start t + len (tok_text t)
          /\ slice text (tok_start t) (tok_end t) = tok_text t).
Proof.
  intros ws pos ner Hlen text toks.
  assert (Hws : map fst (combine ws pos) = ws)
    by now apply map_fst_combine_le.
  assert (Htoks : toks = tile_tokens (entity_map_of ner) 0 (combine ws pos)).
  { subst toks text. unfold _build_tokens.
    pose proof (fold_exact (entity_map_of ner) (combine ws pos) [] [] [])
      as H.
    rewrite Hws in H. simpl in H. rewrite app_nil_r in H.
    change (len []) with 0 in H. now rewrite H. }
  assert (Htext : map tok_text toks = ws)
    by now rewrite Htoks, tile_tokens_text.
  assert (Htiled : tiled 0 toks)
    by (rewrite Htoks; apply tile_tokens_tiled).
  split; [exact Htext|]. split; [exact Htiled|]. split.
  - rewrite (tiled_last_end _ _ Htiled), Htext. subst text. lia.
  - intros i t Hi.
    destruct (tiled_lookup _ _ _ _ Htiled Hi) as [Hs He].
    assert (Hw : ws !! i = Some (tok_text t)).
    { rewrite <- Htext. now apply (lookup_map tok_text). }
    assert (Htake : map tok_text (take i toks) = take i ws).
    { rewrite <- Htext. clear. revert i.
      induction toks as [|x toks IH]; intros [|i]; simpl; try reflexivity.
      now rewrite IH. }
    rewrite Htake in Hs. simpl in Hs.
    split; [exact Hs|]. split; [exact He|].
    rewrite He, Hs. now apply slice_concat.
Qed.

Lemma build_tokens_of_exact_segmentation_witness :
  (2 <= 2)%nat
  /\ last_end 0 (_build_tokens (concat [lit "ab"; lit "c"])
                               [lit "ab"; lit "c"] [lit "N"; lit "V"] [])
     = len (concat [lit "ab"; lit "c"]).
Proof.
  split; [lia|].
  apply (build_tokens_of_exact_segmentation
           [lit "ab"; lit "c"] [lit "N"; lit "V"] []).
  simpl. lia.
Defined.

(** ** Entity marks on tokens *)

Lemma entity_map_of_snoc (ner : list NerToken) (e : NerToken) :
  entity_map_of (ner ++ [e]) = <[ner_idx e := ner_ner e]> (entity_map_of ner).
Proof. unfold entity_map_of. now rewrite fold_left_app. Qed.

(** The dictionary of spans answers with the mark of the last item that
    has the span. *)
Lemma entity_map_lookup (ner : list NerToken) (k : Z * Z) :
  entity_map_of ner !! k
  = option_map ner_ner
      (last (List.filter (fun e => bool_decide (ner_idx e = k)) ner)).
Proof.
  induction ner as [|e ner IH] using rev_ind; [reflexivity|].
  rewrite entity_map_of_snoc, List.filter_app. simpl.
  destruct (decide (ner_idx e = k)) as [Heq | Hne].
  - rewrite Heq, lookup_insert_eq, bool_decide_eq_true_2 by reflexivity.
    now rewrite last_snoc.
  - rewrite lookup_insert_ne, bool_decide_eq_false_2 by assumption.
    now rewrite app_nil_r.
Qed.

Lemma last_filter_Some {A} (f : A -> bool) (l : list A) :
  is_Some (last (List.filter f l)) <-> exists x, In x l /\ f x = true.
Proof.
  split.
  - intros [x Hx]. apply last_Some_elem_of, list_elem_of_In in Hx.
    apply filter_In in Hx. now exists x.
  - intros (x & Hin & Hf).
    assert (Hx : In x (List.filter f l)) by now apply filter_In.
    destruct (List.filter f l) as [|y ys] using rev_ind; [contradiction|].
    rewrite last_snoc. eauto.
Qed.

Section Flags.

Variable text : pystr.
Variable entity_map : gmap (Z * Z) pystr.

Lemma build_tokens_flags_loop (wps : list (pystr * pystr)) :
  Forall (flags_ok entity_map)
         (fst (fold_left (build_token_step text entity_map) wps ([], 0))).
Proof.
  apply (fold_left_invariant (build_token_step text entity_map)
           (fun st => Forall (flags_ok entity_map) (fst st))).
  - intros [toks cur] [word pos_tag] H. simpl in *.
    apply Forall_app. split; [exact H|].
    constructor; [|constructor]. now split.
  - constructor.
Qed.

End Flags.

(** X12: A token is marked as an entity exactly when some recognized entity
    has the very span of the token; its entity type is then the type of
    the last entity of the recognizer's list with that span, and it has
    no type otherwise. *)
Theorem tokens_marked_by_equal_span :
  forall (text : pystr) (ws pos : list pystr) (ner : list NerToken),
    Forall
      (fun t =>
         (tok_is_entity t = true
          <-> exists e, In e (_extract_entities ner)
                        /\ ent_start e = tok_start t
                        /\ ent_end e = tok_end t)
         /\ (tok_is_entity t = true <-> tok_entity_type t <> None)
         /\ tok_entity_type t
            = option_map ner_ner
                (last (List.filter
                         (fun e => bool_decide
                                     (ner_idx e = (tok_start t, tok_end t)))
                         ner)))
      (_build_tokens text ws pos ner).
Proof.
  intros text ws pos ner. unfold _build_tokens.
  eapply Forall_impl; [apply build_tokens_flags_loop|].
  intros t [Hflag Htype]. simpl.
  set (k := (tok_start t, tok_end t)) in *.
  assert (Hsome : is_Some (entity_map_of ner !! k)
                  <-> exists e, In e ner /\ ner_idx e = k).
  { rewrite entity_map_lookup. split.
    - intros [ty Hty].
      destruct (last (List.filter (fun e => bool_decide (ner_idx e = k)) ner))
        as [e|] eqn:E; [|discriminate].
      assert (He : is_Some (last (List.filter
                                    (fun e => bool_decide (ner_idx e = k))
                                    ner))) by eauto.
      apply last_filter_Some in He as (x & Hin & Hx).
      exists x. split; [exact Hin|]. now apply bool_decide_eq_true_1 in Hx.
    - intros (e & Hin & He).
      assert (Hl : is_Some (last (List.filter
                                    (fun e => bool_decide (ner_idx e = k))
                                    ner))).
      { apply last_filter_Some. exists e. split; [exact Hin|].
        now apply bool_decide_eq_true_2. }
      destruct Hl as [x ->]. simpl. eauto. }
  split; [|split].
  - rewrite Hflag, bool_decide_eq_true, Hsome. unfold _extract_entities.
    split.
    + intros (e & Hin & He). eexists. split.
      * apply in_map. exact Hin.
      * simpl. rewrite He. now split.
    + intros (x & Hin & Hs & He'). apply in_map_iff in Hin as (e & <- & Hin).
      exists e. split; [exact Hin|]. simpl in *.
      destruct (ner_idx e). simpl in *. unfold k. now rewrite Hs, He'.
  - rewrite Hflag, bool_decide_eq_true, Htype.
    split; [intros [? ->]; discriminate|].
    intros H. destruct (entity_map_of ner !! k); [eauto | contradiction].
  - rewrite Htype. apply entity_map_lookup.
Qed.

(** ** Contiguous spans and line offsets *)

Lemma tiled_app (a b : list TokenInfo) :
  forall o : Z,
    tiled o (a ++ b) <-> tiled o a /\ tiled (last_end o a) b.
Proof.
  induction a as [|t a IH]; intros o; simpl.
  - unfold last_end. simpl. tauto.
  - rewrite IH. unfold last_end. simpl. tauto.
Qed.

Lemma head_app_ne {A} (l k : list A) (x : A) :
  head l = Some x -> head (l ++ k) = Some x.
Proof. now destruct l. Qed.

Section Anchors.

Variables cpl lpp : Z.

Lemma closed_line_anchored (seen : list TokenInfo) (st : LoopState) :
  wf_inv st ->
  st_line_offset st + len (st_current_line st) = last_end 0 seen ->
  (forall t, head (st_current_line_tokens st) = Some t ->
   tok_start t = st_line_offset st) ->
  (forall t, last (st_current_line_tokens st) = Some t ->
   tok_end t = last_end 0 seen) ->
  Forall anchored (closed_line st).
Proof.
  intros [_ Hc] Ha Hb Hl. unfold closed_line.
  destruct (truthy (st_current_line st)) eqn:E; constructor; [|constructor].
  apply truthy_true in E. unfold anchored. simpl.
  destruct (st_current_line_tokens st) as [|t0 ts] eqn:Hts.
  - simpl in Hc. contradiction.
  - destruct (last (t0 :: ts)) as [t'|] eqn:Hlast.
    + exists t0, t'. repeat split.
      * symmetry. now apply Hb.
      * rewrite (Hl t' eq_refl). exact Ha.
    + apply last_None in Hlast. discriminate.
Qed.

Lemma anchor_inv_step (seen : list TokenInfo) (st : LoopState) (t : TokenInfo) :
  wf_inv st /\ anchor_inv seen st ->
  wf_inv (loop_body cpl lpp st t)
  /\ anchor_inv (seen ++ [t]) (loop_body cpl lpp st t).
Proof.
  intros [Hwf Hinv]. split; [now apply wf_inv_step|].
  intros Htiled. apply tiled_app in Htiled as [Hseen Ht].
  destruct Ht as (Hstart & Hend & _).
  destruct (Hinv Hseen) as (Ha & Hb & Hl & He).
  pose proof (closed_line_anchored seen st Hwf Ha Hb Hl) as Hcl.
  rewrite emitted_loop_body, current_line_loop_body,
    current_tokens_loop_body, line_offset_loop_body, last_end_app.
  change (last_end (last_end 0 seen) [t]) with (tok_end t).
  destruct (_should_break_line _ _ _ _); simpl.
  - repeat split.
    + lia.
    + intros u Hu. injection Hu as <-. lia.
    + intros u Hu. now injection Hu as <-.
    + apply Forall_app. now split.
  - repeat split.
    + rewrite len_app. lia.
    + intros u Hu.
      destruct (st_current_line_tokens st) as [|t0 ts] eqn:Hts.
      * simpl in Hu. injection Hu as <-.
        destruct Hwf as [_ Hc]. rewrite Hts in Hc. simpl in Hc.
        rewrite Hc in Ha. change (len []) with 0 in Ha. lia.
      * simpl in Hu. now apply Hb.
    + intros u Hu. rewrite last_snoc in Hu. now injection Hu as <-.
    + now rewrite app_nil_r.
Qed.

Lemma build_pages_anchored (tokens : list TokenInfo) :
  tiled 0 tokens ->
  Forall anchored (all_lines (build_pages cpl lpp tokens)).
Proof.
  intros Htiled. rewrite all_lines_build_pages.
  set (st := fold_left (loop_body cpl lpp) tokens initial_state).
  assert (H : wf_inv st /\ anchor_inv tokens st).
  { apply (fold_left_invariant_prefix (loop_body cpl lpp)
             (fun seen a => wf_inv a /\ anchor_inv seen a)
             anchor_inv_step tokens [] initial_state).
    split; [split; [constructor | reflexivity]|].
    intros _. repeat split; try discriminate. constructor. }
  destruct H as [Hwf Hinv]. destruct (Hinv Htiled) as (Ha & Hb & Hl & He).
  apply Forall_app. split; [exact He|].
  now apply (closed_line_anchored tokens).
Qed.

End Anchors.

(** X7: When the spans of the tokens follow one another from 0, every line
    begins at the [start] of its first token and ends at the [end] of
    its last one: the running offset and the document offsets agree. *)
Theorem contiguous_tokens_anchor_the_lines :
  forall (chars_per_line lines_per_page : Z) (tokens : list TokenInfo)
         (ents : list EntityInfo),
    tiled 0 tokens ->
    Forall
      (fun l =>
         exists t t',
           head (li_tokens l) = Some t /\ li_offset l = tok_start t
           /\ last (li_tokens l) = Some t'
           /\ li_offset l + li_length l = tok_end t')
      (all_lines (_generate_pages chars_per_line lines_per_page tokens ents)).
Proof.
  intros cpl lpp tokens ents Htiled. unfold _generate_pages.
  rewrite add_entities_all_lines. now apply build_pages_anchored.
Qed.

Lemma contiguous_tokens_anchor_the_lines_witness :
  Forall
    (fun l =>
       exists t t',
         head (li_tokens l) = Some t /\ li_offset l = tok_start t
         /\ last (li_tokens l) = Some t'
         /\ li_offset l + li_length l = tok_end t')
    (all_lines (_generate_pages 3 2
                  [tok "AB" 0 2; tok "CD" 2 4; tok "E" 4 5] [])).
Proof.
  apply (contiguous_tokens_anchor_the_lines 3 2
           [tok "AB" 0 2; tok "CD" 2 4; tok "E" 4 5] []).
  simpl. repeat split.
Defined.

(** * The processed text *)

Lemma replace_go_in (old new : pystr) (c : codepoint) (s : pystr) :
  forall skip : nat,
    In c (replace_go old new skip s) -> In c s \/ In c new.
Proof.
  induction s as [|d s IH]; intros skip H; simpl in H; [contradiction|].
  destruct skip as [|n].
  - destruct (starts_with old (d :: s)).
    + apply in_app_or in H as [H | H]; [now right|].
      destruct (IH _ H); [left; now right | now right].
    + destruct H as [-> | H]; [left; now left|].
      destruct (IH _ H); [left; now right | now right].
  - destruct (IH _ H); [left; now right | now right].
Qed.

Lemma replace_in (s old new : pystr) (c : codepoint) :
  In c (replace s old new) -> In c s \/ In c new.
Proof.
  unfold replace. destruct old as [|k old].
  - intros H. apply in_app_or in H as [H | H]; [now right|].
    apply in_flat_map in H as (d & Hd & [<- | H]); [now left | now right].
  - apply replace_go_in.
Qed.

Lemma replace_removes (s new : pystr) (k : codepoint) :
  ~ In k new -> ~ In k (replace s [k] new).
Proof.
  intros Hnew. unfold replace.
  induction s as [|d s IH]; simpl; [tauto|].
  destruct (k =? d)%N eqn:E; simpl.
  - intros H. apply in_app_or in H as [H | H]; [now apply Hnew | now apply IH].
  - intros [-> | H]; [|now apply IH].
    rewrite N.eqb_refl in E. discriminate.
Qed.

Lemma inb_false (c : codepoint) (s : pystr) : inb c s = false <-> ~ In c s.
Proof.
  unfold inb. induction s as [|d s IH]; simpl; [tauto|].
  rewrite orb_false_iff, IH, N.eqb_neq. intuition congruence.
Qed.

Lemma apply_map_keeps_out (c : codepoint) (m : list (pystr * pystr)) :
  forallb (fun kv => negb (inb c (snd kv))) m = true ->
  forall s : pystr, ~ In c s -> ~ In c (apply_map m s).
Proof.
  unfold apply_map. induction m as [|[old new] m IH]; intros Hm s Hs; simpl.
  - exact Hs.
  - simpl in Hm. apply andb_true_iff in Hm as [Hnew Hm].
    apply negb_true_iff, inb_false in Hnew.
    apply (IH Hm). intros H. apply replace_in in H as [H | H]; tauto.
Qed.

Lemma removes_sound (c : codepoint) (m : list (pystr * pystr)) :
  removes c m = true -> forall s : pystr, ~ In c (apply_map m s).
Proof.
  induction m as [|[old new] m IH]; intros H s; [discriminate|].
  simpl in H. apply orb_true_iff in H as [H | H].
  - apply (IH H).
  - apply andb_true_iff in H as [H Hm]. apply andb_true_iff in H as [Hk Hnew].
    destruct old as [|k [|? ?]]; try discriminate.
    apply N.eqb_eq in Hk. subst k.
    apply negb_true_iff, inb_false in Hnew.
    apply (apply_map_keeps_out c m Hm). now apply replace_removes.
Qed.

(** X13: None of the fourteen marks of the map that are not ASCII is left in
    the processed text, whatever the tokens are. *)
Theorem processed_text_has_no_wide_marks :
  forall tokens : list TokenInfo,
    Forall (fun c => ~ In c (_generate_processed_text tokens)) wide_marks.
Proof.
  intros tokens. apply Forall_forall. intros c Hc.
  assert (Hrem : removes c punctuation_map = true).
  { assert (Hall : forallb (fun c => removes c punctuation_map) wide_marks
                   = true) by (vm_compute; reflexivity).
    rewrite forallb_forall in Hall. now apply Hall, list_elem_of_In. }
  unfold _generate_processed_text. intros H.
  apply in_concat in H as (part & Hpart & Hin).
  apply in_map_iff in Hpart as (t & <- & _).
  exact (removes_sound c punctuation_map Hrem (tok_text t) Hin).
Qed.

(** ** Sorting tokens that are in order *)

Lemma sorted_ascending (toks : list TokenInfo) :
  forall o : Z, ascending o toks -> sorted_by_start toks = toks.
Proof.
  induction toks as [|t toks IH]; intros o H; [reflexivity|].
  destruct H as [_ H]. simpl. rewrite (IH _ H).
  destruct toks as [|u toks]; [reflexivity|].
  destruct H as [Hu _]. simpl.
  apply Z.leb_le in Hu. now rewrite Hu.
Qed.

Lemma tracked_ascending (text : pystr) (toks : list TokenInfo) :
  forall o : Z, 0 <= o -> tracked text o toks -> ascending o toks.
Proof.
  induction toks as [|t toks IH]; intros o Ho H; [exact I|].
  destruct H as [Hl H]. destruct (located_ge text o t Ho Hl) as [Hs He].
  split; [exact Hs|].
  assert (Ha : ascending (tok_end t) toks) by (apply IH; [lia | exact H]).
  destruct toks as [|u toks]; [exact I|].
  destruct Ha as [Hu Ha]. split; [lia | exact Ha].
Qed.

(** X14: The tokens of the tracker are already in the order of their starts,
    so sorting them changes nothing: the processed text is the words in
    the order of the segmenter, each with its punctuation replaced. *)
Theorem processed_text_follows_the_words :
  forall (text : pystr) (ws pos : list pystr) (ner : list NerToken),
    sorted_by_start (_build_tokens text ws pos ner)
    = _build_tokens text ws pos ner
    /\ _generate_processed_text (_build_tokens text ws pos ner)
       = concat (map normalize_punctuation (map fst (combine ws pos))).
Proof.
  intros text ws pos ner.
  assert (Hs : sorted_by_start (_build_tokens text ws pos ner)
               = _build_tokens text ws pos ner).
  { apply (sorted_ascending _ 0), (tracked_ascending text); [lia|].
    unfold _build_tokens.
    now destruct (track_inv_loop text (entity_map_of ner) (combine ws pos)). }
  split; [exact Hs|].
  unfold _generate_processed_text. rewrite Hs.
  rewrite <- (map_map tok_text normalize_punctuation). do 2 f_equal.
  unfold _build_tokens.
  now destruct (track_inv_loop text (entity_map_of ner) (combine ws pos))
    as (_ & _ & ->).
Qed.

(** ** Text that the map leaves alone *)

Lemma replace_go_absent (k : codepoint) (old new s : pystr) :
  ~ In k s -> replace_go (k :: old) new 0 s = s.
Proof.
  induction s as [|d s IH]; intros H; simpl; [reflexivity|].
  destruct (k =? d)%N eqn:E.
  - apply N.eqb_eq in E. subst d. exfalso. apply H. now left.
  - simpl. f_equal. apply IH. intros Hin. apply H. now right.
Qed.

Lemma replace_same (c : codepoint) (s : pystr) : replace s [c] [c] = s.
Proof.
  unfold replace. induction s as [|d s IH]; simpl; [reflexivity|].
  destruct (c =? d)%N eqn:E; simpl.
  - apply N.eqb_eq in E. subst d. now rewrite IH.
  - now rewrite IH.
Qed.

Lemma apply_map_idle (m : list (pystr * pystr)) (s : pystr) :
  Forall (fun kv =>
            (exists k old, fst kv = k :: old /\ ~ In k s)
            \/ (exists c, kv = ([c], [c]))) m ->
  apply_map m s = s.
Proof.
  unfold apply_map. induction 1 as [|[old new] m Hkv _ IH]; simpl;
    [reflexivity|].
  destruct Hkv as [(k & old' & Hold & Hk) | (c & Hc)]; simpl in *.
  - subst old. unfold replace. now rewrite replace_go_absent.
  - injection Hc as -> ->. now rewrite replace_same.
Qed.

(** X15: A text without any of the fourteen marks and without a colon comes
    out of the replacement as it went in. *)
Theorem plain_text_is_left_alone :
  forall s : pystr,
    Forall (fun c => c <> 58%N /\ ~ In c wide_marks) s ->
    normalize_punctuation s = s.
Proof.
  intros s Hs.
  assert (Hout : forall k, k = 58%N \/ In k wide_marks -> ~ In k s).
  { intros k Hk Hin. rewrite Forall_forall in Hs.
    destruct (Hs k) as [H58 Hw]; [now apply list_elem_of_In|].
    destruct Hk; [congruence | contradiction]. }
  unfold normalize_punctuation, punctuation_map.
  apply apply_map_idle.
  repeat (constructor;
          [ first [ right; eexists; reflexivity
                  | left; eexists; eexists; split;
                    [ reflexivity | apply Hout; simpl; tauto ] ] | ]).
  constructor.
Qed.

Lemma plain_text_is_left_alone_witness :
  normalize_punctuation (lit "plain text") = lit "plain text".
Proof.
  apply (plain_text_is_left_alone (lit "plain text")).
  repeat constructor; try discriminate;
    (intros H; vm_compute in H; intuition discriminate).
Defined.

(** * Lines against the text of the tokens *)

(** X6: Every line is the piece of the text of the tokens, put end to end,
    that begins at the line's [offset] and is [length] characters long:
    [offset] and [length] are enough to cut a line out of that text. *)
Theorem lines_are_slices_of_the_text :
  forall (chars_per_line lines_per_page : Z) (tokens : list TokenInfo)
         (ents : list EntityInfo),
    Forall
      (fun l =>
         slice (concat (map tok_text tokens))
               (li_offset l) (li_offset l + li_length l)
         = li_text l)
      (all_lines (_generate_pages chars_per_line lines_per_page tokens ents)).
Proof.
  intros cpl lpp tokens ents. unfold _generate_pages.
  rewrite add_entities_all_lines.
  set (ls := all_lines (build_pages cpl lpp tokens)).
  assert (Hc : chained 0 ls) by apply build_pages_chained.
  assert (Hwf : Forall line_wf ls) by apply build_pages_wf.
  assert (Htext : concat (map li_text ls) = concat (map tok_text tokens))
    by apply build_pages_text.
  apply Forall_lookup. intros i l Hi.
  assert (Hoff : li_offset l = len (concat (take i (map li_text ls)))).
  { rewrite (chained_lookup _ _ _ _ Hc Hi), end_of_text
      by now apply Forall_take.
    rewrite firstn_map. lia. }
  assert (Hlen : li_length l = len (li_text l)).
  { rewrite Forall_lookup in Hwf. now destruct (Hwf i l Hi) as (_ & ? & _). }
  rewrite <- Htext, Hoff, Hlen.
  apply slice_concat. now apply (lookup_map li_text).
Qed.

(** * From a text to a layout *)

Section Blank.

Variable isspace : codepoint -> bool.

Lemma lstrip_nil (s : pystr) :
  lstrip isspace s = [] <-> forallb isspace s = true.
Proof.
  induction s as [|c s IH]; simpl; [tauto|].
  destruct (isspace c); simpl; [exact IH|]. split; discriminate.
Qed.

Lemma lstrip_head (s : pystr) (c : codepoint) (r : pystr) :
  lstrip isspace s = c :: r -> isspace c = false.
Proof.
  induction s as [|d s IH]; simpl; [discriminate|].
  destruct (isspace d) eqn:E; [exact IH|].
  intros H. injection H as <- _. exact E.
Qed.

Lemma strip_nil (s : pystr) :
  strip isspace s = [] <-> forallb isspace s = true.
Proof.
  unfold strip. rewrite <- lstrip_nil. split.
  - intros H. destruct (lstrip isspace s) as [|c r] eqn:E; [reflexivity|].
    apply (f_equal (@rev codepoint)) in H. rewrite rev_involutive in H.
    simpl in H. apply lstrip_nil in H.
    rewrite forallb_app in H. apply andb_true_iff in H as [_ H].
    simpl in H. rewrite (lstrip_head _ _ _ E) in H. discriminate.
  - intros ->. reflexivity.
Qed.

End Blank.

(** X16: A text of white space only, the empty text included, is not handed
    to the annotators: [process_text] returns no token and no entity,
    and the layout made from it has no page and no character, whatever
    the two capacities are. *)
Theorem blank_text_gives_no_page :
  forall (isspace : codepoint -> bool) (ws_driver : pystr -> list pystr)
         (pos_driver : list pystr -> list pystr)
         (ner_driver : pystr -> list NerToken)
         (chars_per_line lines_per_page : Z) (text : pystr),
    forallb isspace text = true ->
    process_text isspace ws_driver pos_driver ner_driver text
    = {| pr_tokens := []; pr_entities := []; pr_processed_text := [];
         pr_original_text := None |}
    /\ create_layout_json_of_text isspace ws_driver pos_driver ner_driver
         chars_per_line lines_per_page text
       = {| md_total_pages := 0;
            md_chars_per_line := chars_per_line;
            md_lines_per_page := lines_per_page;
            md_total_chars := 0;
            ld_pages := [] |}.
Proof.
  intros isspace ws pos ner cpl lpp text Hblank.
  assert (H : process_text isspace ws pos ner text
              = {| pr_tokens := []; pr_entities := [];
                   pr_processed_text := []; pr_original_text := None |}).
  { unfold process_text. apply strip_nil in Hblank. now rewrite Hblank. }
  split; [exact H|].
  unfold create_layout_json_of_text. now rewrite H.
Qed.

Lemma blank_text_gives_no_page_witness :
  ld_pages (create_layout_json_of_text space_only two_words all_nouns
              no_entity 35 18 (lit "   "))
  = [].
Proof.
  pose proof (blank_text_gives_no_page space_only two_words all_nouns
                no_entity 35 18 (lit "   ")) as H.
  destruct H as [_ H]; [reflexivity|]. now rewrite H.
Defined.

(** X17: For a text that is not blank, when the words of the segmenter make
    up the text exactly and the tagger gives a tag for each word, the
    layout holds the text: the lines spell it, every line is the piece
    of it at [offset], [length] characters long, and begins at the
    [start] of its first token; the character count of the metadata is
    the length of the text. *)
Theorem exact_segmentation_lays_out_the_text :
  forall (isspace : codepoint -> bool) (ws_driver : pystr -> list pystr)
         (pos_driver : list pystr -> list pystr)
         (ner_driver : pystr -> list NerToken)
         (chars_per_line lines_per_page : Z) (text : pystr),
    forallb isspace text = false ->
    concat (ws_driver text) = text ->
    (length (ws_driver text) <= length (pos_driver (ws_driver text)))%nat ->
    let doc :=
      create_layout_json_of_text isspace ws_driver pos_driver ner_driver
        chars_per_line lines_per_page text in
    concat (map li_text (all_lines (ld_pages doc))) = text
    /\ md_total_chars doc = len text
    /\ Forall (fun l =>
                 slice text (li_offset l) (li_offset l + li_length l)
                 = li_text l
                 /\ exists t, head (li_tokens l) = Some t
                              /\ li_offset l = tok_start t)
              (all_lines (ld_pages doc)).
Proof.
  intros isspace ws pos ner cpl lpp text Hnb Hseg Hlen doc. subst doc.
  unfold create_layout_json_of_text, process_text.
  assert (Hstrip : truthy (strip isspace text) = true).
  { destruct (truthy (strip isspace text)) eqn:E; [reflexivity|].
    apply truthy_false, strip_nil in E. congruence. }
  rewrite Hstrip. simpl.
  pose proof (build_tokens_of_exact_segmentation (ws text) (pos (ws text))
                (ner text) Hlen) as H.
  cbv zeta in H. rewrite Hseg in H.
  set (tokens := _build_tokens text (ws text) (pos (ws text)) (ner text))
    in *.
  set (ents := _extract_entities (ner text)).
  destruct H as (Htext & Htiled & _ & _).
  assert (Hall : concat (map tok_text tokens) = text)
    by now rewrite Htext.
  fold (_generate_pages cpl lpp tokens ents).
  split; [|split].
  - unfold _generate_pages. rewrite add_entities_all_lines.
    now rewrite build_pages_text.
  - rewrite <- Hall. unfold _generate_pages.
    rewrite (sum_totals_all_lines _ (add_entities_totals _ _
               (build_pages_totals cpl lpp tokens))).
    rewrite add_entities_all_lines, (sum_lengths_wf _
               (build_pages_wf cpl lpp tokens)).
    now rewrite build_pages_text.
  - unfold _generate_pages. rewrite add_entities_all_lines.
    pose proof (build_pages_anchored cpl lpp tokens Htiled) as Hanch.
    pose proof (build_pages_chained cpl lpp tokens) as Hc.
    pose proof (build_pages_wf cpl lpp tokens) as Hwf.
    pose proof (build_pages_text cpl lpp tokens) as Ht.
    set (ls := all_lines (build_pages cpl lpp tokens)) in *.
    apply Forall_lookup. intros i l Hi. split.
    + assert (Hoff : li_offset l = len (concat (take i (map li_text ls)))).
      { rewrite (chained_lookup _ _ _ _ Hc Hi), end_of_text
          by now apply Forall_take.
        rewrite firstn_map. lia. }
      assert (Hl : li_length l = len (li_text l)).
      { rewrite Forall_lookup in Hwf.
        now destruct (Hwf i l Hi) as (_ & ? & _). }
      rewrite <- Hall, <- Ht, Hoff, Hl.
      apply slice_concat. now apply (lookup_map li_text).
    + rewrite Forall_lookup in Hanch.
      destruct (Hanch i l Hi) as (t & t' & Hh & Ho & _). eauto.
Qed.

Lemma exact_segmentation_lays_out_the_text_witness :
  md_total_chars
    (create_layout_json_of_text space_only two_words all_nouns no_entity
       35 18 (lit "abc"))
  = len (lit "abc").
Proof.
  apply (exact_segmentation_lays_out_the_text space_only two_words all_nouns
           no_entity 35 18 (lit "abc")).
  - reflexivity.
  - reflexivity.
  - simpl. lia.
Defined.

(** * The rendering with markers *)

(** ** Splitting what was joined *)

Lemma split_on_no_sep (sep : codepoint) (s : pystr) :
  ~ In sep s -> split_on sep s = [s].
Proof.
  induction s as [|c s IH]; intros H; simpl; [reflexivity|].
  destruct (c =? sep)%N eqn:E.
  - apply N.eqb_eq in E. exfalso. apply H. now left.
  - rewrite IH; [reflexivity|]. intros Hin. apply H. now right.
Qed.

Lemma split_on_app (sep : codepoint) (p rest : pystr) :
  ~ In sep p -> split_on sep (p ++ sep :: rest) = p :: split_on sep rest.
Proof.
  induction p as [|c p IH]; intros H; simpl.
  - now rewrite N.eqb_refl.
  - destruct (c =? sep)%N eqn:E.
    + apply N.eqb_eq in E. exfalso. apply H. now left.
    + rewrite IH; [reflexivity|]. intros Hin. apply H. now right.
Qed.

Lemma split_on_join (sep : codepoint) (items : list pystr) :
  items <> [] ->
  Forall (fun item => ~ In sep item) items ->
  split_on sep (join [sep] items) = items.
Proof.
  intros Hne H. induction H as [|p items Hp Hitems IH]; [contradiction|].
  destruct items as [|q items].
  - simpl. now apply split_on_no_sep.
  - change (join [sep] (p :: q :: items))
      with (p ++ sep :: join [sep] (q :: items)).
    rewrite split_on_app by exact Hp. f_equal. now apply IH.
Qed.

(** ** Characters of the markers *)

Lemma lit_app (a b : string) : lit (a ++ b) = lit a ++ lit b.
Proof.
  unfold lit. induction a as [|c a IH]; simpl; [reflexivity|].
  now rewrite IH.
Qed.

Lemma digits_of_uint (d : Decimal.uint) :
  Forall (fun c => (48 <= c <= 57)%N) (lit (NilEmpty.string_of_uint d)).
Proof.
  induction d; simpl; try (constructor; [simpl; lia | exact IHd]).
  constructor.
Qed.

Lemma digits_of_N (n : N) :
  Forall (fun c => (48 <= c <= 57)%N)
         (lit (NilZero.string_of_uint (N.to_uint n))).
Proof.
  unfold NilZero.string_of_uint.
  destruct (N.to_uint n) eqn:E; try (rewrite <- E; apply digits_of_uint).
  repeat constructor; simpl; lia.
Qed.

Lemma format_0d_chars (width : nat) (n : Z) :
  Forall (fun c => c = 45%N \/ (48 <= c <= 57)%N) (format_0d width n).
Proof.
  unfold format_0d. apply Forall_app. split; [|apply Forall_app; split].
  - destruct (n <? 0); repeat constructor.
  - apply Forall_forall. intros c Hc.
    apply list_elem_of_In, repeat_spec in Hc. subst c. right. lia.
  - eapply Forall_impl; [apply digits_of_N|]. intros c Hc. now right.
Qed.

Lemma format_0d_no_newline (width : nat) (n : Z) :
  ~ In 10%N (format_0d width n).
Proof.
  intros H. pose proof (format_0d_chars width n) as Hc.
  rewrite Forall_forall in Hc. apply list_elem_of_In in H.
  destruct (Hc _ H) as [? | ?]; [discriminate | lia].
Qed.

(** ** What the checks of the test find *)

Lemma ends_with_app (suffix x : pystr) : ends_with suffix (x ++ suffix) = true.
Proof. unfold ends_with. rewrite rev_app_distr. apply starts_with_app. Qed.

Lemma page_start_tag_kind (pid : Z) :
  is_page_start (page_start_tag pid) = true
  /\ is_page_end (page_start_tag pid) = false
  /\ is_line_tag (page_start_tag pid) = false.
Proof.
  unfold is_page_start, is_page_end, is_line_tag, page_start_tag.
  rewrite starts_with_app. split; [|split; [|reflexivity]].
  - rewrite app_assoc. now rewrite ends_with_app.
  - rewrite app_assoc. unfold ends_with. rewrite rev_app_distr. reflexivity.
Qed.

Lemma page_end_tag_kind (pid : Z) :
  is_page_start (page_end_tag pid) = false
  /\ is_page_end (page_end_tag pid) = true
  /\ is_line_tag (page_end_tag pid) = false.
Proof.
  unfold is_page_start, is_page_end, is_line_tag, page_end_tag.
  rewrite starts_with_app. split; [|split; [|reflexivity]].
  - rewrite app_assoc. unfold ends_with. rewrite rev_app_distr. reflexivity.
  - rewrite app_assoc. now rewrite ends_with_app.
Qed.

Lemma line_item_kind (pid : Z) (il : Z * LineInfo) :
  is_page_start (line_item pid il) = false
  /\ is_page_end (line_item pid il) = false
  /\ is_line_tag (line_item pid il) = true.
Proof.
  unfold is_page_start, is_page_end, is_line_tag, line_item, line_tag.
  repeat split; reflexivity.
Qed.

Lemma filter_map_all {A B} (f : B -> bool) (g : A -> B) (xs : list A) :
  (forall x, f (g x) = true) -> List.filter f (map g xs) = map g xs.
Proof.
  intros H. induction xs as [|x xs IH]; simpl; [reflexivity|].
  now rewrite H, IH.
Qed.

Lemma filter_map_none {A B} (f : B -> bool) (g : A -> B) (xs : list A) :
  (forall x, f (g x) = false) -> List.filter f (map g xs) = [].
Proof.
  intros H. induction xs as [|x xs IH]; simpl; [reflexivity|].
  now rewrite H, IH.
Qed.

Lemma length_enumerate_from {A} (xs : list A) :
  forall i : Z, length (enumerate_from i xs) = length xs.
Proof.
  induction xs as [|x xs IH]; intros i; simpl; [reflexivity|].
  now rewrite IH.
Qed.

Lemma tagged_page_items (page : PageLayout) :
  tagged_page page
  = (if page_id page >? 1 then [ [] ] else [])
    ++ [page_start_tag (page_id page); []]
    ++ map (line_item (page_id page)) (enumerate_from 1 (lines page))
    ++ [page_end_tag (page_id page); []].
Proof. reflexivity. Qed.

Lemma tagged_page_counts (page : PageLayout) :
  length (List.filter is_page_start (tagged_page page)) = 1%nat
  /\ length (List.filter is_page_end (tagged_page page)) = 1%nat
  /\ length (List.filter is_line_tag (tagged_page page))
     = length (lines page).
Proof.
  rewrite tagged_page_items.
  destruct (page_start_tag_kind (page_id page)) as (S1 & S2 & S3).
  destruct (page_end_tag_kind (page_id page)) as (E1 & E2 & E3).
  rewrite !List.filter_app.
  rewrite (filter_map_none is_page_start), (filter_map_none is_page_end),
    (filter_map_all is_line_tag)
    by (intros il; apply (line_item_kind (page_id page) il)).
  rewrite !length_app, length_map, length_enumerate_from.
  assert (B1 : is_page_start [] = false) by reflexivity.
  assert (B2 : is_page_end [] = false) by reflexivity.
  assert (B3 : is_line_tag [] = false) by reflexivity.
  cbn [List.filter].
  rewrite S1, S2, S3, E1, E2, E3, B1, B2, B3.
  destruct (page_id page >? 1); cbn [List.filter length];
    rewrite ?B1, ?B2, ?B3; cbn [length]; repeat split; lia.
Qed.

Lemma length_filter_concat {A B} (f : B -> bool) (g : A -> list B)
    (k : A -> nat) (xs : list A) :
  (forall x, length (List.filter f (g x)) = k x) ->
  length (List.filter f (concat (map g xs))) = list_sum (map k xs).
Proof.
  intros H. induction xs as [|x xs IH]; simpl; [reflexivity|].
  now rewrite List.filter_app, length_app, H, IH.
Qed.

Lemma list_sum_ones {A} (xs : list A) :
  list_sum (map (fun _ => 1%nat) xs) = length xs.
Proof. induction xs as [|x xs IH]; simpl; [reflexivity | now rewrite IH]. Qed.

Lemma list_sum_lines (pages : list PageLayout) :
  list_sum (map (fun p => length (lines p)) pages)
  = length (all_lines pages).
Proof.
  unfold all_lines. induction pages as [|p ps IH]; simpl; [reflexivity|].
  now rewrite length_app, IH.
Qed.

Lemma tagged_page_no_newline (page : PageLayout) :
  Forall (fun l => ~ In 10%N (li_text l)) (lines page) ->
  Forall (fun item => ~ In 10%N item) (tagged_page page).
Proof.
  intros Hlines. rewrite tagged_page_items.
  assert (Hlit : forall s : string,
             forallb (fun c => negb (c =? 10)%N) (lit s) = true ->
             ~ In 10%N (lit s)).
  { intros s H Hin. rewrite forallb_forall in H.
    specialize (H _ Hin). discriminate. }
  assert (Hstart : ~ In 10%N (page_start_tag (page_id page))).
  { unfold page_start_tag. intros H.
    apply in_app_or in H as [H | H]; [now apply (Hlit "<PAGE_"%string)|].
    apply in_app_or in H as [H | H];
      [now apply (format_0d_no_newline 3 (page_id page))
      | now apply (Hlit "_START>"%string)]. }
  assert (Hend : ~ In 10%N (page_end_tag (page_id page))).
  { unfold page_end_tag. intros H.
    apply in_app_or in H as [H | H]; [now apply (Hlit "<PAGE_"%string)|].
    apply in_app_or in H as [H | H];
      [now apply (format_0d_no_newline 3 (page_id page))
      | now apply (Hlit "_END>"%string)]. }
  repeat (apply Forall_app; split).
  - destruct (page_id page >? 1); repeat constructor. tauto.
  - repeat constructor; [exact Hstart | tauto].
  - apply Forall_map.
    assert (Hsnd : forall (i : Z),
               Forall (fun il : Z * LineInfo => ~ In 10%N (li_text (snd il)))
                      (enumerate_from i (lines page))).
    { induction Hlines as [|l ls Hl _ IH]; intros i; simpl; constructor;
        [exact Hl | apply IH]. }
    eapply Forall_impl; [apply (Hsnd 1)|].
    intros [i l] Hl. unfold line_item, line_tag. cbn [fst snd] in *.
    intros H. apply in_app_or in H as [H | H].
    + apply in_app_or in H as [H | H];
        [now apply (Hlit "<LINE_"%string)|].
      apply in_app_or in H as [H | H];
        [now apply (format_0d_no_newline 3 (page_id page))|].
      apply in_app_or in H as [H | H]; [now apply (Hlit "_"%string)|].
      apply in_app_or in H as [H | H];
        [now apply (format_0d_no_newline 2 i) | now apply (Hlit ">"%string)].
    + apply in_app_or in H as [H | H];
        [now apply (Hlit " "%string) | contradiction].
  - repeat constructor; [exact Hend | tauto].
Qed.

(** X18: When no line text holds a newline, cutting the rendering at the
    newlines gives back the items it was joined from, and the checks of
    the test count right: one start marker and one end marker for each
    page, one line marker for each line. *)
Theorem markers_are_counted_by_the_test :
  forall pages : list PageLayout,
    Forall (fun l => ~ In 10%N (li_text l)) (all_lines pages) ->
    (pages <> [] ->
     split_on 10%N (generate_txt_content pages)
     = concat (map tagged_page pages))
    /\ length (page_starts (generate_txt_content pages)) = length pages
    /\ length (page_ends (generate_txt_content pages)) = length pages
    /\ length (line_tags (generate_txt_content pages))
       = length (all_lines pages).
Proof.
  intros pages Hnl.
  destruct pages as [|p ps].
  - split; [congruence|]. repeat split.
  - set (pages := p :: ps) in *.
    assert (Hsplit : split_on 10%N (generate_txt_content pages)
                     = concat (map tagged_page pages)).
    { rewrite generate_txt_content_by_page. apply split_on_join.
      - subst pages. simpl. rewrite tagged_page_items.
        destruct (page_id p >? 1); discriminate.
      - apply Forall_concat, Forall_map.
        unfold all_lines in Hnl. rewrite Forall_concat in Hnl.
        apply (proj1 (Forall_map lines _ pages)) in Hnl.
        eapply Forall_impl; [exact Hnl|].
        intros q Hq. now apply tagged_page_no_newline. }
    split; [intros _; exact Hsplit|].
    unfold page_starts, page_ends, line_tags. rewrite Hsplit.
    rewrite (length_filter_concat is_page_start tagged_page (fun _ => 1%nat)),
      (length_filter_concat is_page_end tagged_page (fun _ => 1%nat)),
      (length_filter_concat is_line_tag tagged_page
         (fun q => length (lines q)))
      by (intros q; apply (tagged_page_counts q)).
    now rewrite list_sum_ones, list_sum_lines.
Qed.

Lemma markers_are_counted_by_the_test_witness :
  length (page_starts (generate_txt_content two_pages)) = length two_pages.
Proof.
  apply (markers_are_counted_by_the_test two_pages).
  repeat constructor; intros H; vm_compute in H; intuition discriminate.
Defined.

(** ** Numbers in the markers *)

Lemma digits_value_acc (d : Decimal.uint) :
  forall acc : positive,
    fold_left digit_step (lit (NilEmpty.string_of_uint d)) (Npos acc)
    = Npos (Pos.of_uint_acc d acc).
Proof.
  induction d; intros acc; simpl; try reflexivity;
    rewrite <- IHd; f_equal; unfold digit_step; lia.
Qed.

Lemma digits_value_of_uint (d : Decimal.uint) :
  digits_value (lit (NilEmpty.string_of_uint d)) = N.of_uint d.
Proof.
  unfold digits_value, N.of_uint.
  induction d; simpl; try reflexivity; try exact IHd;
    rewrite <- digits_value_acc; f_equal.
Qed.

Lemma to_uint_not_nil (n : N) : N.to_uint n <> Decimal.Nil.
Proof.
  intros H. pose proof (DecimalN.Unsigned.of_to n) as Hn.
  rewrite H in Hn. simpl in Hn. subst n. discriminate.
Qed.

Lemma digits_value_of_N (n : N) :
  digits_value (lit (NilZero.string_of_uint (N.to_uint n))) = n.
Proof.
  unfold NilZero.string_of_uint.
  pose proof (to_uint_not_nil n) as Hne.
  destruct (N.to_uint n) eqn:E; try contradiction;
    rewrite <- E, digits_value_of_uint; apply DecimalN.Unsigned.of_to.
Qed.

Lemma digits_value_zeros (k : nat) (s : pystr) :
  digits_value (repeat 48%N k ++ s) = digits_value s.
Proof.
  unfold digits_value. induction k as [|k IH]; simpl; [reflexivity|].
  exact IH.
Qed.

Lemma length_format_0d (width : nat) (n : Z) :
  (width <= length (format_0d width n))%nat.
Proof.
  unfold format_0d.
  set (digits := lit (NilZero.string_of_uint (N.to_uint (Z.abs_N n)))).
  set (sign := if n <? 0 then lit "-" else []).
  rewrite !length_app, repeat_length.
  change (@length N digits) with (@length codepoint digits).
  generalize (length digits), (length sign). intros a b. lia.
Qed.

(** [format_0d] can be read back: the sign and the digits spell the
    number again, the zeros in front change nothing. *)
Lemma read_int_format_0d (width : nat) (n : Z) :
  read_int (format_0d width n) = n.
Proof.
  unfold format_0d.
  set (digits := lit (NilZero.string_of_uint (N.to_uint (Z.abs_N n)))).
  assert (Hv : forall k, digits_value (repeat 48%N k ++ digits) = Z.abs_N n).
  { intros k. rewrite digits_value_zeros. apply digits_value_of_N. }
  destruct (n <? 0) eqn:E.
  - apply Z.ltb_lt in E. simpl. rewrite Hv. lia.
  - apply Z.ltb_ge in E. simpl.
    assert (Hhead : forall s : pystr,
               Forall (fun c => (48 <= c <= 57)%N) s ->
               read_int s = Z.of_N (digits_value s)).
    { intros s Hs. destruct Hs as [|c s Hc _]; [reflexivity|].
      unfold read_int.
      destruct c as [|p]; [reflexivity|].
      do 6 (destruct p as [p|p|]; try reflexivity); lia. }
    rewrite Hhead.
    + rewrite Hv. lia.
    + apply Forall_app. split; [|apply digits_of_N].
      apply Forall_forall. intros c Hc.
      apply list_elem_of_In, repeat_spec in Hc. subst c. lia.
Qed.

Lemma format_0d_inj (width : nat) (a b : Z) :
  format_0d width a = format_0d width b -> a = b.
Proof.
  intros H. rewrite <- (read_int_format_0d width a), H.
  apply read_int_format_0d.
Qed.

Lemma split_at_unique (c : codepoint) (a b x y : pystr) :
  ~ In c a -> ~ In c b -> a ++ c :: x = b ++ c :: y -> a = b /\ x = y.
Proof.
  revert b. induction a as [|d a IH]; intros [|e b] Ha Hb H; simpl in *.
  - injection H as <-. now split.
  - injection H as <- _. exfalso. apply Hb. now left.
  - injection H as -> _. exfalso. apply Ha. now left.
  - injection H as <- H.
    destruct (IH b) as [-> ->]; auto.
Qed.

Lemma format_0d_no_underscore (width : nat) (n : Z) :
  ~ In 95%N (format_0d width n).
Proof.
  intros H. pose proof (format_0d_chars width n) as Hc.
  rewrite Forall_forall in Hc. apply list_elem_of_In in H.
  destruct (Hc _ H) as [? | ?]; [discriminate | lia].
Qed.

(** X19: A marker tells its page, and a line marker its line as well: the
    numbers in it can be read back, so two markers of the same kind are
    the same only for the same page and the same line. *)
Theorem markers_identify_page_and_line :
  (forall (width : nat) (n : Z), read_int (format_0d width n) = n)
  /\ (forall p q : Z, page_start_tag p = page_start_tag q -> p = q)
  /\ (forall p q : Z, page_end_tag p = page_end_tag q -> p = q)
  /\ (forall p q i j : Z, line_tag p i = line_tag q j -> p = q /\ i = j).
Proof.
  split; [exact read_int_format_0d|]. split; [|split].
  - intros p q H. unfold page_start_tag in H.
    apply app_inv_head, app_inv_tail in H. exact (format_0d_inj 3 _ _ H).
  - intros p q H. unfold page_end_tag in H.
    apply app_inv_head, app_inv_tail in H. exact (format_0d_inj 3 _ _ H).
  - intros p q i j H. unfold line_tag in H. apply app_inv_head in H.
    change (lit "_") with [95%N] in H. simpl in H.
    apply split_at_unique in H as [Hp Hi];
      try apply format_0d_no_underscore.
    apply app_inv_tail in Hi.
    split; [exact (format_0d_inj 3 _ _ Hp) | exact (format_0d_inj 2 _ _ Hi)].
Qed.

(** ** Widths of the markers *)

Lemma digits_value_bound (s : pystr) :
  Forall (fun c => (48 <= c <= 57)%N) s ->
  forall acc : N,
    (fold_left digit_step s acc < (acc + 1) * 10 ^ N.of_nat (length s))%N.
Proof.
  induction 1 as [|c s Hc _ IH]; intros acc.
  - simpl. lia.
  - cbn [fold_left length]. rewrite Nat2N.inj_succ, N.pow_succ_r by lia.
    specialize (IH (digit_step acc c)). unfold digit_step in *. nia.
Qed.

Lemma format_0d_width_value (width : nat) (n : Z) :
  0 <= n -> length (format_0d width n) = width ->
  n < 10 ^ Z.of_nat width.
Proof.
  intros Hn Hlen.
  pose proof (read_int_format_0d width n) as Hread.
  assert (Hdig : Forall (fun c => (48 <= c <= 57)%N) (format_0d width n)).
  { unfold format_0d. destruct (n <? 0) eqn:E; [apply Z.ltb_lt in E; lia|].
    simpl. apply Forall_app. split; [|apply digits_of_N].
    apply Forall_forall. intros c Hc.
    apply list_elem_of_In, repeat_spec in Hc. subst c. lia. }
  pose proof (digits_value_bound _ Hdig 0%N) as Hb.
  rewrite Hlen in Hb. fold (digits_value (format_0d width n)) in Hb.
  assert (Hv : read_int (format_0d width n)
               = Z.of_N (digits_value (format_0d width n))).
  { destruct Hdig as [|c s Hc _]; [reflexivity|].
    unfold read_int. destruct c as [|p]; [reflexivity|].
    do 6 (destruct p as [p|p|]; try reflexivity); lia. }
  rewrite Hv in Hread. rewrite <- Hread.
  replace (10 ^ Z.of_nat width) with (Z.of_N (10 ^ N.of_nat width)%N).
  - lia.
  - rewrite N2Z.inj_pow. f_equal. lia.
Qed.

Lemma format_0d_width_3 (n : Z) :
  0 <= n -> (length (format_0d 3 n) = 3%nat <-> n <= 999).
Proof.
  intros Hn. split.
  - intros H. apply format_0d_width_value in H; [|exact Hn].
    change (10 ^ Z.of_nat 3) with 1000 in H. lia.
  - intros H.
    assert (Hall : forallb (fun k => Nat.eqb (length (format_0d 3 (Z.of_nat k))) 3)
                           (seq 0 1000) = true) by (vm_compute; reflexivity).
    rewrite forallb_forall in Hall.
    specialize (Hall (Z.to_nat n)). rewrite Z2Nat.id in Hall by exact Hn.
    apply Nat.eqb_eq, Hall, in_seq. lia.
Qed.

Lemma format_0d_width_2 (n : Z) :
  0 <= n -> (length (format_0d 2 n) = 2%nat <-> n <= 99).
Proof.
  intros Hn. split.
  - intros H. apply format_0d_width_value in H; [|exact Hn].
    change (10 ^ Z.of_nat 2) with 100 in H. lia.
  - intros H.
    assert (Hall : forallb (fun k => Nat.eqb (length (format_0d 2 (Z.of_nat k))) 2)
                           (seq 0 100) = true) by (vm_compute; reflexivity).
    rewrite forallb_forall in Hall.
    specialize (Hall (Z.to_nat n)). rewrite Z2Nat.id in Hall by exact Hn.
    apply Nat.eqb_eq, Hall, in_seq. lia.
Qed.

(** X20: The markers keep a fixed width as long as the page number stays
    below 1000 and the line number below 100, and only so long: 16
    characters for a start marker, 14 for an end marker, 13 for a line
    marker; beyond, they grow. *)
Theorem markers_have_fixed_width :
  forall pid i : Z,
    0 <= pid -> 0 <= i ->
    (length (page_start_tag pid) = 16%nat <-> pid <= 999)
    /\ (length (page_end_tag pid) = 14%nat <-> pid <= 999)
    /\ (length (line_tag pid i) = 13%nat <-> pid <= 999 /\ i <= 99)
    /\ (16 <= length (page_start_tag pid))%nat
    /\ (14 <= length (page_end_tag pid))%nat
    /\ (13 <= length (line_tag pid i))%nat.
Proof.
  intros pid i Hp Hi.
  pose proof (format_0d_width_3 pid Hp) as H3.
  pose proof (format_0d_width_2 i Hi) as H2.
  pose proof (length_format_0d 3 pid) as G3.
  pose proof (length_format_0d 2 i) as G2.
  unfold page_start_tag, page_end_tag, line_tag.
  rewrite !length_app.
  change (length (lit "<PAGE_")) with 6%nat.
  change (length (lit "_START>")) with 7%nat.
  change (length (lit "_END>")) with 5%nat.
  change (length (lit "<LINE_")) with 6%nat.
  change (length (lit "_")) with 1%nat.
  change (length (lit ">")) with 1%nat.
  split; [|split; [|split; [|lia]]].
  - split; intros H; [apply H3; lia | apply H3 in H; lia].
  - split; intros H; [apply H3; lia | apply H3 in H; lia].
  - split.
    + intros H. split; [apply H3; lia | apply H2; lia].
    + intros [Ha Hb]. apply H3 in Ha. apply H2 in Hb. lia.
Qed.

Lemma markers_have_fixed_width_witness :
  length (page_start_tag 7) = 16%nat <-> 7 <= 999.
Proof.
  apply (markers_have_fixed_width 7 3); lia.
Defined.
